(** * Balchhi: the "my listings" panel (src/components/my-listings.tsx)

    A shallow embedding of the React component [MyListings]: its local state,
    the two asynchronous handlers [fetchMyListings] and [handleDelete] (each
    split at its single [await]), the pure helper [getLocationString], the
    render function, and the event loop that interleaves them. *)

From Stdlib Require Import ZArith.
From stdpp Require Import base option list sets strings sorting gmap.

Local Open Scope string_scope.

(** ** Data model *)

Inductive ListingType := lost | found.

(** [MyListingsProps.status]: one of three string literals. *)
Inductive Status := active | closed | archived.

Definition status_tag (s : Status) : string :=
  match s with
  | active => "active"
  | closed => "closed"
  | archived => "archived"
  end.

Definition type_tag (t : ListingType) : string :=
  match t with
  | lost => "lost"
  | found => "found"
  end.

Module Category.
Record t := mk { name : string }.
End Category.

Module Media.
Record t := mk { url : string }.
End Media.

(** [Listing['location']]: every field is optional. *)
Module Location.
Record t := mk {
  district : option string;
  province : option string;
  address : option string
}.
Definition empty : t := mk None None None.
End Location.

Module Listing.
Record t := mk {
  id : string;
  title : string;
  type : ListingType;
  category : option Category.t;
  location : option Location.t;
  created_at : string;
  media : list Media.t;
  view_count : Z;
  status : string
}.
End Listing.

Module User.
Record t := mk { id : string }.
End User.

(** The session object is only ever tested for presence. *)
Module Session.
Record t := mk { access_token : string }.
End Session.

(** ** JavaScript truthiness of the values the component tests *)

(** A string is truthy when it is not empty. *)
Definition truthy_string (s : string) : bool :=
  if decide (s = "") then false else true.

(** An optional string ([undefined], [null] or a string). *)
Definition truthy (o : option string) : bool :=
  match o with
  | Some s => truthy_string s
  | None => false
  end.

(** [a || b] on strings. *)
Definition or_else (o : option string) (d : string) : string :=
  match o with
  | Some s => if truthy_string s then s else d
  | None => d
  end.

(** ** getLocationString *)

(** [parts.push(x)] *)
Definition push {A} (parts : list A) (x : A) : list A := parts ++ [x].

(** [if (field) parts.push(field)] *)
Definition push_if_truthy (parts : list string) (field : option string)
  : list string :=
  match field with
  | Some s => if truthy_string s then push parts s else parts
  | None => parts
  end.

(** [parts.join(', ')] *)
Definition join (sep : string) (parts : list string) : string :=
  String.concat sep parts.

Definition getLocationString (location : option Location.t) : string :=
  match location with
  | None => "Unknown location"
  | Some location =>
      let parts := [] in
      let parts := push_if_truthy parts (Location.address location) in
      let parts := push_if_truthy parts (Location.district location) in
      let parts := push_if_truthy parts (Location.province location) in
      if (0 <? length parts)%nat then join ", " parts else "Unknown location"
  end.

(** The specification's reading of the same function: the fields that are
    present, in the order address, district, province. A field is present
    when it holds a non-empty text. *)
Definition present (field : option string) : list string :=
  match field with
  | Some s => if decide (s = "") then [] else [s]
  | None => []
  end.

Definition present_fields (location : Location.t) : list string :=
  present (Location.address location)
  ++ present (Location.district location)
  ++ present (Location.province location).

Definition location_display (location : option Location.t) : string :=
  match location with
  | None => "Unknown location"
  | Some location =>
      match present_fields location with
      | [] => "Unknown location"
      | first :: rest =>
          foldl (λ acc field, acc +:+ ", " +:+ field) first rest
      end
  end.

(** ** The query builder of the backend client

    [supabase.from(t).select(cols).eq(c, v).order(c, {ascending})] and
    [supabase.from(t).delete().eq(c, v)] build a request value; nothing is
    sent before the builder is awaited. *)

Inductive Verb :=
  | Select (columns : list string)
  | Delete.

(** [.eq(column, value)]; the value is absent when the argument evaluates
    to [undefined] (as [user?.id] does without a user). *)
Inductive Filter := Eq (column : string) (value : option string).

Module Query.
Record t := mk {
  table : string;
  verb : option Verb;
  filters : list Filter;
  ordering : option (string * bool)     (* column, ascending *)
}.
End Query.

Definition from (table : string) : Query.t :=
  Query.mk table None [] None.

Definition select (columns : list string) (q : Query.t) : Query.t :=
  Query.mk (Query.table q) (Some (Select columns)) (Query.filters q)
           (Query.ordering q).

Definition delete_ (q : Query.t) : Query.t :=
  Query.mk (Query.table q) (Some Delete) (Query.filters q) (Query.ordering q).

Definition eq_ (column : string) (value : option string) (q : Query.t)
  : Query.t :=
  Query.mk (Query.table q) (Query.verb q)
           (push (Query.filters q) (Eq column value)) (Query.ordering q).

Definition order (column : string) (ascending : bool) (q : Query.t)
  : Query.t :=
  Query.mk (Query.table q) (Query.verb q) (Query.filters q)
           (Some (column, ascending)).

Definition is_delete (q : Query.t) : bool :=
  match Query.verb q with Some Delete => true | _ => false end.

(** The column list of the read query (lines 47-57). *)
Definition listing_columns : list string :=
  ["id"; "title"; "type"; "status"; "created_at"; "location"; "view_count";
   "category:categories(name)"; "media:item_media(url)"].

(** The read query of [fetchMyListings] (lines 45-60). *)
Definition listings_query (user : User.t) (status : Status) : Query.t :=
  order "created_at" false
    (eq_ "status" (Some (status_tag status))
       (eq_ "user_id" (Some (User.id user))
          (select listing_columns (from "items")))).

(** The write query of [handleDelete] (lines 84-88), with [user?.id]. *)
Definition delete_query (listingId : string) (user : option User.t)
  : Query.t :=
  eq_ "user_id" (User.id <$> user)
    (eq_ "id" (Some listingId)
       (delete_ (from "items"))).

(** ** The backend *)

(** A row of the [items] table: the owner column, which the read query does
    not select, and the columns (with the joined category and media) that it
    does. *)
Module Item.
Record t := mk {
  user_id : string;
  listing : Listing.t
}.
Definition id (row : t) : string := Listing.id (listing row).
End Item.

Abbreviation Table := (list Item.t).

(** The identifier column is a key of the table. *)
Definition table_wf (rows : Table) : Prop := NoDup (Item.id <$> rows).

Global Instance table_wf_dec rows : Decision (table_wf rows).
Proof. unfold table_wf. apply _. Defined.

Section Backend.

(** The instant a [created_at] text denotes, by which the backend orders
    rows. *)
Variable instant : string → Z.

(** Modelled from the spec: the text of a scalar column of a row, for the
    columns that can be filtered on. *)
Definition column_value (column : string) (row : Item.t) : option string :=
  if decide (column = "id") then Some (Item.id row)
  else if decide (column = "user_id") then Some (Item.user_id row)
  else if decide (column = "status") then
    Some (Listing.status (Item.listing row))
  else if decide (column = "title") then
    Some (Listing.title (Item.listing row))
  else if decide (column = "type") then
    Some (type_tag (Listing.type (Item.listing row)))
  else if decide (column = "created_at") then
    Some (Listing.created_at (Item.listing row))
  else None.

(** Modelled from the spec: a row passes an equality filter when the
    column holds exactly the requested value. *)
Definition passes (row : Item.t) (f : Filter) : Prop :=
  match f with
  | Eq column (Some value) => column_value column row = Some value
  | Eq column None => False
  end.

Global Instance passes_dec row f : Decision (passes row f).
Proof. destruct f as [c [v|]]; simpl; apply _. Defined.

Definition selected (q : Query.t) (row : Item.t) : Prop :=
  Forall (passes row) (Query.filters q).

Global Instance selected_dec q row : Decision (selected q row).
Proof. unfold selected. apply _. Defined.

(** Modelled from the spec: the sort key of a row under [.order(column)],
    the instant its value denotes. *)
Definition order_key (column : string) (row : Item.t) : Z :=
  match column_value column row with
  | Some v => instant v
  | None => 0
  end.

Definition ordered (column : string) (ascending : bool)
  : relation Item.t :=
  λ a b, if ascending
         then (order_key column a ≤ order_key column b)%Z
         else (order_key column b ≤ order_key column a)%Z.

Global Instance ordered_dec column ascending a b :
  Decision (ordered column ascending a b).
Proof. unfold ordered. destruct ascending; apply _. Defined.

(** Modelled from the spec: the rows a read query returns, "select rows
    from an items table filtered by owner id and status, ordered by
    creation time descending" (section 6). *)
Definition run_select (rows : Table) (q : Query.t) : list Listing.t :=
  let hits := filter (selected q) rows in
  let hits :=
    match Query.ordering q with
    | Some (column, ascending) =>
        merge_sort (ordered column ascending) hits
    | None => hits
    end in
  Item.listing <$> hits.

(** Modelled from the spec: the table after a write query, "delete a row
    from items filtered by id and owner id" (section 6). *)
Definition run_delete (rows : Table) (q : Query.t) : Table :=
  filter (λ row, ¬ selected q row) rows.

(** Newest first, on the rows the panel holds. *)
Definition newer_or_same : relation Listing.t :=
  λ a b, (instant (Listing.created_at b) ≤ instant (Listing.created_at a))%Z.

End Backend.

(** ** Component state *)

(** The three [useState] cells. *)
Module Panel.
Record t := mk {
  listings : list Listing.t;
  isLoading : bool;
  error : option string
}.
End Panel.

(** [useState([])], [useState(true)], [useState(null)]. *)
Definition initial_panel : Panel.t := Panel.mk [] true None.

Definition setListings (v : list Listing.t) (p : Panel.t) : Panel.t :=
  Panel.mk v (Panel.isLoading p) (Panel.error p).

Definition setIsLoading (v : bool) (p : Panel.t) : Panel.t :=
  Panel.mk (Panel.listings p) v (Panel.error p).

Definition setError (v : option string) (p : Panel.t) : Panel.t :=
  Panel.mk (Panel.listings p) (Panel.isLoading p) v.

(** What a render closes over besides the state: the auth context and the
    [status] prop, which are also the dependencies of the effect. *)
Module Deps.
Record t := mk {
  user : option User.t;
  session : option Session.t;
  status : Status
}.
End Deps.

(** ** Observable effects *)

Inductive Effect :=
  | Request (q : Query.t)        (* an awaited query leaves for the backend *)
  | Confirm (message : string)   (* window.confirm *)
  | Alert (message : string)     (* window.alert *)
  | ConsoleError (label : string).

Global Instance Verb_eq_dec : EqDecision Verb.
Proof. solve_decision. Defined.
Global Instance Filter_eq_dec : EqDecision Filter.
Proof. solve_decision. Defined.
Global Instance Query_eq_dec : EqDecision Query.t.
Proof. solve_decision. Defined.
Global Instance Effect_eq_dec : EqDecision Effect.
Proof. solve_decision. Defined.

(** The value of [{ data, error }] an awaited query resolves to. *)
Module Response.
Record t := mk {
  data : option (list Listing.t);
  error : option string
}.
End Response.

(** How an [await] ends. *)
Inductive Settled :=
  | Resolved (response : Response.t)
  | Rejected.

(** [data || []] *)
Definition or_empty {A} (data : option (list A)) : list A :=
  match data with
  | Some rows => rows
  | None => []
  end.

(** ** fetchMyListings, up to its [await] (lines 36-60) *)
Definition fetchMyListings_start (d : Deps.t) (p : Panel.t)
  : Panel.t * list Effect * option Query.t :=
  match Deps.user d, Deps.session d with
  | Some user, Some _ =>
      let p := setIsLoading true p in
      let p := setError None p in
      let q := listings_query user (Deps.status d) in
      (p, [Request q], Some q)
  | _, _ => (setIsLoading false p, [], None)
  end.

(** ** fetchMyListings, from its [await] on (lines 62-74); the [finally]
    block runs on every path. *)
Definition fetchMyListings_resume (r : Settled) (p : Panel.t)
  : Panel.t * list Effect :=
  match r with
  | Resolved response =>
      match Response.error response with
      | Some fetchError =>
          let p := setError (Some "Failed to load listings") p in
          (setIsLoading false p, [ConsoleError "Error fetching listings:"])
      | None =>
          let p := setListings (or_empty (Response.data response)) p in
          (setIsLoading false p, [])
      end
  | Rejected =>
      let p := setError (Some "Failed to load listings") p in
      (setIsLoading false p, [ConsoleError "Error:"])
  end.

(** ** handleDelete *)

(** A [handleDelete] call suspended at its [await]: the argument and the
    [listings] of the render whose closure is running. *)
Module Suspended.
Record t := mk {
  listingId : string;
  listings : list Listing.t;
  query : Query.t
}.
End Suspended.

Definition confirm_message : string :=
  "Are you sure you want to delete this listing?".

(** Lines 80-88. [confirmed] is the answer of [window.confirm]; [user] and
    [listings] are those of the render the handler belongs to. *)
Definition handleDelete_start (confirmed : bool) (user : option User.t)
    (listings : list Listing.t) (listingId : string)
  : list Effect * option Suspended.t :=
  if negb confirmed then ([Confirm confirm_message], None)
  else
    let q := delete_query listingId user in
    ([Confirm confirm_message; Request q],
     Some (Suspended.mk listingId listings q)).

(** Lines 90-100. *)
Definition handleDelete_resume (r : Settled) (k : Suspended.t) (p : Panel.t)
  : Panel.t * list Effect :=
  match r with
  | Resolved response =>
      match Response.error response with
      | Some deleteError =>
          (p, [ConsoleError "Error deleting listing:";
               Alert "Failed to delete listing"])
      | None =>
          (setListings
             (filter (λ l, Listing.id l ≠ Suspended.listingId k)
                     (Suspended.listings k)) p,
           [])
      end
  | Rejected => (p, [ConsoleError "Error:"; Alert "Failed to delete listing"])
  end.

(** ** Rendering (lines 112-232) *)

Inductive Action :=
  | WindowLocationReload                (* window.location.reload() *)
  | HandleDelete (listingId : string)   (* handleDelete(listing.id) *)
  | NoHandler.                          (* the edit button *)

Global Instance Action_eq_dec : EqDecision Action.
Proof. solve_decision. Defined.

(** One card of the list, with the values interpolated into the markup. *)
Module Card.
Record t := mk {
  key : string;
  img_src : string;
  img_alt : string;
  heading : string;
  badge : string;
  category_line : string;
  location_line : string;
  date_of : string;       (* shown through Date.toLocaleDateString *)
  views : Z;
  view_href : string;
  onEdit : Action;
  onDelete : Action
}.
End Card.

Definition card (listing : Listing.t) : Card.t :=
  Card.mk
    (Listing.id listing)
    (or_else (Media.url <$> head (Listing.media listing)) "/placeholder.svg")
    (Listing.title listing)
    (Listing.title listing)
    (match Listing.type listing with lost => "Lost" | found => "Found" end)
    (or_else (Category.name <$> Listing.category listing) "Uncategorized")
    (getLocationString (Listing.location listing))
    (Listing.created_at listing)
    (if decide (Listing.view_count listing = 0%Z) then 0%Z
     else Listing.view_count listing)
    ("/listing/" +:+ Listing.id listing)
    NoHandler
    (HandleDelete (Listing.id listing)).

Inductive View :=
  | Spinner
  | ErrorView (message : string) (onClick : Action)
  | EmptyView (status : Status) (href : string)
  | Cards (cards : list Card.t).

Definition render (status : Status) (p : Panel.t) : View :=
  if Panel.isLoading p then Spinner
  else if truthy (Panel.error p) then
    ErrorView (default "" (Panel.error p)) WindowLocationReload
  else if decide (length (Panel.listings p) = 0) then
    EmptyView status "/listing/create"
  else Cards (card <$> Panel.listings p).

(** The cards on screen. *)
Definition cards_of (v : View) : list Card.t :=
  match v with
  | Cards cards => cards
  | _ => []
  end.

(** The rows on screen. *)
Definition displayed (p : Panel.t) : list Listing.t :=
  if Panel.isLoading p then []
  else if truthy (Panel.error p) then []
  else Panel.listings p.

(** ** The component in its environment

    The browser runs one handler at a time, each up to its next [await];
    requests that are in flight settle in any order, and nothing cancels
    them. *)

Module World.
Record t := mk {
  deps : Deps.t;                    (* auth context and props, as rendered *)
  panel : Panel.t;
  fetches : list Query.t;           (* fetchMyListings calls in flight *)
  deletes : list Suspended.t;       (* handleDelete calls in flight *)
  items : Table;                    (* the backend's table *)
  log : list Effect                 (* effects so far, oldest first *)
}.
End World.

(** What the backend does with a request. *)
Inductive Reply :=
  | Served                      (* executed; [error] is null *)
  | Refused (error : string)    (* not executed; [error] is set *)
  | Threw.                      (* the awaited promise rejects *)

Inductive Event :=
  | Rerender (d : Deps.t)       (* user, session or status changed *)
  | FetchSettles (i : nat) (reply : Reply)
  | ClickDelete (listingId : string) (confirmed : bool)
  | DeleteSettles (i : nat) (reply : Reply)
  | ClickRetry
  | OtherWrite (rows : Table).  (* another client changes the table *)

Section Machine.

Variable instant : string → Z.

(** The body of [useEffect]: one call of [fetchMyListings]. *)
Definition run_effect (w : World.t) : World.t :=
  let '(p, effects, q) :=
    fetchMyListings_start (World.deps w) (World.panel w) in
  World.mk (World.deps w) p
           (World.fetches w ++ option_list q)
           (World.deletes w) (World.items w)
           (World.log w ++ effects).

(** First render and first run of the effect. *)
Definition mount (d : Deps.t) (rows : Table) : World.t :=
  run_effect (World.mk d initial_panel [] [] rows []).

(** [window.location.reload()]: the page is loaded again, which drops what
    was in flight and mounts the component afresh. *)
Definition reload (w : World.t) : World.t :=
  run_effect
    (World.mk (World.deps w) initial_panel [] [] (World.items w)
              (World.log w)).

Definition select_settled (rows : Table) (q : Query.t) (reply : Reply)
  : Settled :=
  match reply with
  | Served => Resolved (Response.mk (Some (run_select instant rows q)) None)
  | Refused e => Resolved (Response.mk None (Some e))
  | Threw => Rejected
  end.

Definition delete_settled (rows : Table) (q : Query.t) (reply : Reply)
  : Table * Settled :=
  match reply with
  | Served => (run_delete rows q, Resolved (Response.mk None None))
  | Refused e => (rows, Resolved (Response.mk None (Some e)))
  | Threw => (rows, Rejected)
  end.

Definition step (w : World.t) (e : Event) : option World.t :=
  match e with
  | Rerender d =>
      Some (run_effect
              (World.mk d (World.panel w) (World.fetches w) (World.deletes w)
                        (World.items w) (World.log w)))
  | FetchSettles i reply =>
      q ← World.fetches w !! i;
      let '(p, effects) :=
        fetchMyListings_resume (select_settled (World.items w) q reply)
                               (World.panel w) in
      Some (World.mk (World.deps w) p (delete i (World.fetches w))
                     (World.deletes w) (World.items w)
                     (World.log w ++ effects))
  | ClickDelete listingId confirmed =>
      let view := render (Deps.status (World.deps w)) (World.panel w) in
      if decide (HandleDelete listingId ∈ Card.onDelete <$> cards_of view)
      then
        let '(effects, k) :=
          handleDelete_start confirmed (Deps.user (World.deps w))
                             (Panel.listings (World.panel w)) listingId in
        Some (World.mk (World.deps w) (World.panel w) (World.fetches w)
                       (World.deletes w ++ option_list k) (World.items w)
                       (World.log w ++ effects))
      else None
  | DeleteSettles i reply =>
      k ← World.deletes w !! i;
      let '(rows, r) :=
        delete_settled (World.items w) (Suspended.query k) reply in
      let '(p, effects) := handleDelete_resume r k (World.panel w) in
      Some (World.mk (World.deps w) p (World.fetches w)
                     (delete i (World.deletes w)) rows
                     (World.log w ++ effects))
  | ClickRetry =>
      match render (Deps.status (World.deps w)) (World.panel w) with
      | ErrorView _ WindowLocationReload => Some (reload w)
      | _ => None
      end
  | OtherWrite rows =>
      if decide (table_wf rows)
      then Some (World.mk (World.deps w) (World.panel w) (World.fetches w)
                          (World.deletes w) rows (World.log w))
      else None
  end.

(** [reachable past w]: the component can be in world [w], the backend's
    table having gone through the states [past], latest first. *)
Inductive reachable : list Table → World.t → Prop :=
  | reachable_mount d rows :
      table_wf rows → reachable [rows] (mount d rows)
  | reachable_step past w e w' :
      reachable past w → step w e = Some w' →
      reachable (World.items w' :: past) w'.

(** Running a list of events from a world. *)
Fixpoint run (w : World.t) (es : list Event) : option World.t :=
  match es with
  | [] => Some w
  | e :: es => w' ← step w e; run w' es
  end.

End Machine.

(** ** The navigation link wrapper (the page-transition module) *)

Module Links.

Section Links.

(** Any JavaScript value, with [undefined] among them. *)
Variable Value : Type.
Variable undefined : Value.

(** [o[k]]: a missing key reads as [undefined]. *)
Definition get (k : string) (o : gmap string Value) : Value :=
  default undefined (o !! k).

(** A React element: the component and the props object handed to it. *)
Record Element := element {
  component : string;
  props : gmap string Value
}.

(** [<Link href={href} className={className} {...props}>{children}</Link>]
    after [{ href, children, className, ...props }] has taken the argument
    apart: later keys of the props object win over earlier ones. *)
Definition TransitionLink (args : gmap string Value) : Element :=
  let href := get "href" args in
  let children := get "children" args in
  let className := get "className" args in
  let props :=
    delete "className" (delete "children" (delete "href" args)) in
  element "Link"
    (<["children" := children]>
       (props ∪ <["className" := className]> (<["href" := href]> ∅))).

(** [<>{children}</>] *)
Definition PageTransitionProvider (args : gmap string Value) : Element :=
  element "Fragment" {["children" := get "children" args]}.

End Links.

End Links.

(** ** Sample data *)

Module Sample.

(** A reading of timestamps of one fixed layout: the number their digits
    spell. *)
Fixpoint digits (acc : Z) (s : string) : Z :=
  match s with
  | EmptyString => acc
  | String c s =>
      let n := Z.of_nat (Ascii.nat_of_ascii c) in
      if decide (48 ≤ n ∧ n ≤ 57)%Z then digits (acc * 10 + (n - 48)) s
      else digits acc s
  end.

Definition instant (s : string) : Z := digits 0 s.

Definition row (id created status : string) : Listing.t :=
  Listing.mk id ("Item " +:+ id) lost None None created [] 0 status.

Definition alice : User.t := User.mk "u-alice".
Definition bob : User.t := User.mk "u-bob".
Definition token : Session.t := Session.mk "jwt".

Definition keys : Listing.t := row "k1" "2024-01-05T10:00:00" "active".
Definition phone : Listing.t := row "k2" "2024-02-11T08:30:00" "active".
Definition wallet : Listing.t := row "k3" "2024-03-02T17:45:00" "closed".
Definition scarf : Listing.t := row "k4" "2024-01-20T12:00:00" "active".

Definition items : Table :=
  [Item.mk (User.id alice) keys; Item.mk (User.id alice) phone;
   Item.mk (User.id alice) wallet; Item.mk (User.id bob) scarf].

Definition signed_in (status : Status) : Deps.t :=
  Deps.mk (Some alice) (Some token) status.

Definition signed_out (status : Status) : Deps.t :=
  Deps.mk None None status.

(** Two fetches race: the response for "active" arrives after the one for
    "closed". *)
Definition late_response : list Event :=
  [Rerender (signed_in closed); FetchSettles 1 Served; FetchSettles 0 Served].

(** The panel of a signed-in owner asking for "active" rows, after the
    given events. *)
Definition mounted : World.t := mount (signed_in active) items.

Definition world (es : list Event) : World.t :=
  default mounted (run instant mounted es).

(** The first fetch has been answered. *)
Definition loaded : World.t := world [FetchSettles 0 Served].

End Sample.

(** ** Specification predicates *)

(** The owner's rows with the requested status, as the specification
    names them. *)
Definition owned_with_status (user : User.t) (status : Status) (rows : Table)
  : Table :=
  filter (λ row, Item.user_id row = User.id user ∧
                 Listing.status (Item.listing row) = status_tag status) rows.

(** An [await] that ends in the error path of its handler. *)
Definition failed (r : Settled) : bool :=
  match r with
  | Resolved response => bool_decide (is_Some (Response.error response))
  | Rejected => true
  end.

Section Invariants.

Variable instant : string → Z.

(** The rows are, in order, among those a read query of the panel returned:
    the query was sent (it is in the log) and [rows] is a state of the table
    (it is in [past]) on which it ran. *)
Definition from_issued_query (log : list Effect) (past : list Table)
    (l : list Listing.t) : Prop :=
  ∃ user status rows,
    Request (listings_query user status) ∈ log
    ∧ rows ∈ past
    ∧ table_wf rows
    ∧ l `sublist_of` run_select instant rows (listings_query user status).

(** The invariant as the specification words it: what is on screen is among
    the current owner's rows with the currently requested status, newest
    first. *)
Definition shows_requested_rows (w : World.t) : Prop :=
  match Deps.user (World.deps w), Deps.session (World.deps w) with
  | Some user, Some _ =>
      displayed (World.panel w) ⊆
      run_select instant (World.items w)
                 (listings_query user (Deps.status (World.deps w)))
  | _, _ => displayed (World.panel w) = []
  end
  ∧ StronglySorted (newer_or_same instant) (displayed (World.panel w)).

(** What holds of a suspended [handleDelete]: its closure holds rows of an
    issued query, its target is one of them, and its request is the one
    line 84 builds. *)
Definition suspended_ok (log : list Effect) (past : list Table)
    (k : Suspended.t) : Prop :=
  from_issued_query log past (Suspended.listings k)
  ∧ Suspended.listingId k ∈ Listing.id <$> Suspended.listings k
  ∧ ∃ user, Suspended.query k = delete_query (Suspended.listingId k) user.

Definition fetch_ok (log : list Effect) (q : Query.t) : Prop :=
  ∃ user status, q = listings_query user status ∧ Request q ∈ log.

Definition world_ok (past : list Table) (w : World.t) : Prop :=
  (Panel.listings (World.panel w) = []
   ∨ from_issued_query (World.log w) past (Panel.listings (World.panel w)))
  ∧ Forall (suspended_ok (World.log w) past) (World.deletes w)
  ∧ Forall (fetch_ok (World.log w)) (World.fetches w)
  ∧ table_wf (World.items w)
  ∧ World.items w ∈ past.

End Invariants.

(** * Properties *)

(** ** Location display *)

Lemma append_cons ch (a b : string) : String ch a +:+ b = String ch (a +:+ b).
Proof. done. Qed.

Lemma append_assoc (a b c : string) : (a +:+ b) +:+ c = a +:+ b +:+ c.
Proof.
  induction a as [|ch a IH]; [done|]. by rewrite !append_cons, IH.
Qed.

Lemma push_if_truthy_present parts field :
  push_if_truthy parts field = (parts ++ present field)%list.
Proof.
  destruct field as [s|]; simpl; [|by rewrite app_nil_r].
  unfold truthy_string, push. destruct (decide (s = "")); [|done].
  by rewrite app_nil_r.
Qed.

Lemma foldl_append_prefix sep pre first rest :
  pre +:+ foldl (λ acc field, acc +:+ sep +:+ field) first rest =
  foldl (λ acc field, acc +:+ sep +:+ field) (pre +:+ first) rest.
Proof.
  revert first. induction rest as [|x rest IH]; intros first; simpl; [done|].
  by rewrite IH, append_assoc.
Qed.

(** Joining with a separator, written as the left fold of the
    specification. *)
Lemma join_foldl sep first rest :
  join sep (first :: rest) =
  foldl (λ acc field, acc +:+ sep +:+ field) first rest.
Proof.
  revert first. induction rest as [|x rest IH]; intros first; [done|].
  change (join sep (first :: x :: rest))
    with (first +:+ sep +:+ join sep (x :: rest)).
  rewrite IH. simpl.
  by rewrite <- append_assoc, (foldl_append_prefix sep (first +:+ sep)),
    append_assoc.
Qed.

(** C2. For every location value [getLocationString] is the
    comma-separated join of the present fields among address, district and
    province, in that order, and is "Unknown location" when the location is
    absent or no field is present. An address alone displays as the address,
    a district with a province as "district, province", and the location
    without fields as "Unknown location". *)
Theorem getLocationString_joins_present_fields :
  (∀ location, getLocationString location = location_display location)
  ∧ (∀ c address,
       getLocationString
         (Some (Location.mk None None (Some (String c address))))
       = String c address)
  ∧ (∀ c district c' province,
       getLocationString
         (Some (Location.mk (Some (String c district))
                            (Some (String c' province)) None))
       = String c district +:+ ", " +:+ String c' province)
  ∧ getLocationString (Some Location.empty) = "Unknown location"
  ∧ getLocationString None = "Unknown location".
Proof.
  split; [|by repeat split].
  intros [location|]; [|done].
  unfold getLocationString, location_display, present_fields.
  rewrite !push_if_truthy_present, <- !(assoc_L (++)%list). simpl.
  destruct (present (Location.address location) ++
            present (Location.district location) ++
            present (Location.province location))%list
    as [|first rest] eqn:E.
  - done.
  - simpl. apply join_foldl.
Qed.

Lemma present_not_empty field : "" ∉ present field.
Proof.
  destruct field as [s|]; simpl; [|apply not_elem_of_nil].
  destruct (decide (s = "")) as [|Hs]; [apply not_elem_of_nil|].
  rewrite list_elem_of_singleton. congruence.
Qed.

(** C10. A location field that holds the empty string counts as absent: the
    display is the same as without the field, so the empty text is never one
    of the joined parts, and a location whose three fields are all empty
    displays as "Unknown location". *)
Theorem getLocationString_empty_field_is_absent :
  (∀ district province,
     getLocationString (Some (Location.mk district province (Some "")))
     = getLocationString (Some (Location.mk district province None)))
  ∧ (∀ province address,
       getLocationString (Some (Location.mk (Some "") province address))
       = getLocationString (Some (Location.mk None province address)))
  ∧ (∀ district address,
       getLocationString (Some (Location.mk district (Some "") address))
       = getLocationString (Some (Location.mk district None address)))
  ∧ (∀ location, "" ∉ present_fields location)
  ∧ getLocationString (Some (Location.mk (Some "") (Some "") (Some "")))
    = "Unknown location".
Proof.
  repeat split; try done.
  intros location. unfold present_fields. rewrite !elem_of_app.
  intros [H|[H|H]]; by apply present_not_empty in H.
Qed.

(** ** The backend's answers to the two queries of the panel *)

Section BackendFacts.

Variable instant : string → Z.

Lemma column_value_id row : column_value "id" row = Some (Item.id row).
Proof. reflexivity. Qed.

Lemma column_value_user_id row :
  column_value "user_id" row = Some (Item.user_id row).
Proof. reflexivity. Qed.

Lemma column_value_status row :
  column_value "status" row = Some (Listing.status (Item.listing row)).
Proof. reflexivity. Qed.

Lemma selected_listings_query user status row :
  selected (listings_query user status) row ↔
  Item.user_id row = User.id user ∧
  Listing.status (Item.listing row) = status_tag status.
Proof.
  unfold selected, listings_query, eq_, push. simpl.
  rewrite !Forall_cons, Forall_nil. simpl.
  rewrite column_value_user_id, column_value_status.
  split.
  - intros (Hu & Hs & _). split; congruence.
  - intros [Hu Hs]. repeat split; congruence.
Qed.

Lemma selected_delete_query listingId user row :
  selected (delete_query listingId user) row ↔
  Item.id row = listingId ∧ Some (Item.user_id row) = User.id <$> user.
Proof.
  unfold selected, delete_query, eq_, push. simpl.
  rewrite !Forall_cons, Forall_nil.
  destruct user as [u|]; simpl;
    rewrite ?column_value_id, ?column_value_user_id.
  - split.
    + intros (Hi & Hu & _). split; congruence.
    + intros [Hi Hu]. repeat split; congruence.
  - split; [intros (_ & [] & _)|intros [_ ?]; discriminate].
Qed.

Global Instance ordered_total column ascending :
  Total (ordered instant column ascending).
Proof. intros a b. unfold ordered. destruct ascending; lia. Qed.

Global Instance ordered_trans column ascending :
  Transitive (ordered instant column ascending).
Proof. intros a b c. unfold ordered. destruct ascending; lia. Qed.

Lemma ordered_created_at a b :
  ordered instant "created_at" false a b →
  newer_or_same instant (Item.listing a) (Item.listing b).
Proof. done. Qed.

Lemma run_select_listings_query rows user status :
  run_select instant rows (listings_query user status) =
  Item.listing <$>
    merge_sort (ordered instant "created_at" false)
               (owned_with_status user status rows).
Proof.
  unfold run_select, owned_with_status. simpl. do 2 f_equal.
  apply list_filter_iff. intros row. apply selected_listings_query.
Qed.

Lemma run_select_Permutation rows user status :
  run_select instant rows (listings_query user status) ≡ₚ
  Item.listing <$> owned_with_status user status rows.
Proof.
  rewrite run_select_listings_query. apply fmap_Permutation.
  apply merge_sort_Permutation.
Qed.

Lemma run_select_sorted rows user status :
  StronglySorted (newer_or_same instant)
    (run_select instant rows (listings_query user status)).
Proof.
  rewrite run_select_listings_query.
  eapply StronglySorted_fmap; [apply ordered_created_at|].
  apply StronglySorted_merge_sort; apply _.
Qed.

Lemma run_select_NoDup rows user status :
  table_wf rows →
  NoDup (Listing.id <$> run_select instant rows (listings_query user status)).
Proof.
  intros Hwf. rewrite run_select_Permutation.
  rewrite <- list_fmap_compose.
  refine (sublist_NoDup _ _ Hwf _).
  apply fmap_sublist, sublist_filter.
Qed.

Lemma run_delete_wf rows q : table_wf rows → table_wf (run_delete rows q).
Proof.
  unfold table_wf, run_delete. intros Hwf.
  refine (sublist_NoDup _ _ Hwf _). apply fmap_sublist, sublist_filter.
Qed.

Lemma StronglySorted_sublist {A} (R : relation A) (l k : list A) :
  l `sublist_of` k → StronglySorted R k → StronglySorted R l.
Proof.
  induction 1 as [|x l k Hlk IH|x l k Hlk IH]; intros Hk.
  - constructor.
  - apply StronglySorted_cons in Hk as [Hx Hk].
    apply StronglySorted_cons. split; [|auto].
    eapply Forall_forall. intros y Hy.
    eapply Forall_forall in Hx; [exact Hx|].
    by eapply sublist_subseteq.
  - apply StronglySorted_cons in Hk as [_ Hk]. auto.
Qed.

End BackendFacts.

(** ** The handlers, case by case *)

Lemma fetchMyListings_start_signed_out d p :
  Deps.user d = None ∨ Deps.session d = None →
  fetchMyListings_start d p =
  (Panel.mk (Panel.listings p) false (Panel.error p), [], None).
Proof.
  unfold fetchMyListings_start.
  intros [-> | ->]; [done|]. by destruct (Deps.user d).
Qed.

Lemma fetchMyListings_start_cases d p :
  (∃ user session,
     Deps.user d = Some user ∧ Deps.session d = Some session
     ∧ fetchMyListings_start d p =
       (Panel.mk (Panel.listings p) true None,
        [Request (listings_query user (Deps.status d))],
        Some (listings_query user (Deps.status d))))
  ∨ ((Deps.user d = None ∨ Deps.session d = None)
     ∧ fetchMyListings_start d p =
       (Panel.mk (Panel.listings p) false (Panel.error p), [], None)).
Proof.
  destruct d as [[user|] [session|] status]; simpl.
  - left. by exists user, session.
  - right. split; [by right|done].
  - right. split; [by left|done].
  - right. split; [by left|done].
Qed.

Lemma fetchMyListings_resume_failed r p :
  failed r = true →
  ∃ label,
    fetchMyListings_resume r p =
    (Panel.mk (Panel.listings p) false (Some "Failed to load listings"),
     [ConsoleError label]).
Proof.
  destruct r as [[data [e|]]|]; simpl; intros Hr; try done; by eexists.
Qed.

Lemma handleDelete_resume_failed r k p :
  failed r = true →
  ∃ label,
    handleDelete_resume r k p =
    (p, [ConsoleError label; Alert "Failed to delete listing"]).
Proof.
  destruct r as [[data [e|]]|]; simpl; intros Hr; try done; by eexists.
Qed.

Lemma filter_keeps_all {A} (P : A → Prop) `{∀ x, Decision (P x)} (l : list A) :
  Forall P l → filter P l = l.
Proof.
  induction 1 as [|x l Hx Hl IH]; [done|].
  by rewrite filter_cons_True, IH.
Qed.

(** Removing by identifier from a list whose identifiers are distinct takes
    out the one row that carries it. *)
Lemma filter_removes_one (front back : list Listing.t) row :
  NoDup (Listing.id <$> (front ++ row :: back)%list) →
  filter (λ l, Listing.id l ≠ Listing.id row) (front ++ row :: back)%list =
  (front ++ back)%list.
Proof.
  intros Hnd. rewrite fmap_app, fmap_cons in Hnd.
  apply NoDup_app in Hnd as (_ & Hfront & Hback).
  apply NoDup_cons in Hback as [Hback _].
  rewrite filter_app, filter_cons_False by (intros H; by apply H).
  f_equal; apply filter_keeps_all, Forall_forall; intros l Hl Heq.
  - apply (Hfront (Listing.id l)).
    + apply list_elem_of_fmap. by exists l.
    + rewrite Heq. apply list_elem_of_here.
  - apply Hback. rewrite <- Heq. apply list_elem_of_fmap. by exists l.
Qed.

(** ** Rendering *)

Lemma cards_of_render status p :
  cards_of (render status p) = card <$> displayed p.
Proof.
  unfold render, displayed.
  destruct (Panel.isLoading p); [done|].
  destruct (truthy (Panel.error p)); [done|].
  destruct (decide (length (Panel.listings p) = 0)) as [Hlen|]; [|done].
  by apply nil_length_inv in Hlen as ->.
Qed.

Lemma displayed_sublist p : displayed p `sublist_of` Panel.listings p.
Proof.
  unfold displayed.
  destruct (Panel.isLoading p); [apply sublist_nil_l|].
  destruct (truthy (Panel.error p)); [apply sublist_nil_l|done].
Qed.

Lemma delete_button_on_screen status p listingId :
  HandleDelete listingId ∈ Card.onDelete <$> cards_of (render status p) ↔
  listingId ∈ Listing.id <$> displayed p.
Proof.
  rewrite cards_of_render, <- list_fmap_compose.
  rewrite !list_elem_of_fmap. split.
  - intros (l & Heq & Hl). exists l. split; [|done]. simpl in Heq. congruence.
  - intros (l & -> & Hl). by exists l.
Qed.

(** ** What every reachable world satisfies *)

Section InvariantFacts.

Variable instant : string → Z.

Lemma from_issued_query_later log more past rows l :
  from_issued_query instant log past l →
  from_issued_query instant (log ++ more) (rows ++ past) l.
Proof.
  intros (user & status & rows' & Hlog & Hpast & Hwf & Hsub).
  exists user, status, rows'. rewrite !elem_of_app. auto.
Qed.

Lemma from_issued_query_sublist log past l l' :
  l' `sublist_of` l →
  from_issued_query instant log past l →
  from_issued_query instant log past l'.
Proof.
  intros Hl' (user & status & rows & Hlog & Hpast & Hwf & Hsub).
  exists user, status, rows. repeat split; [done..|]. by etrans.
Qed.

Lemma from_issued_query_NoDup log past l :
  from_issued_query instant log past l → NoDup (Listing.id <$> l).
Proof.
  intros (user & status & rows & _ & _ & Hwf & Hsub).
  refine (sublist_NoDup _ _ (run_select_NoDup instant _ user status Hwf) _).
  by apply fmap_sublist.
Qed.

Lemma from_issued_query_sorted log past l :
  from_issued_query instant log past l →
  StronglySorted (newer_or_same instant) l.
Proof.
  intros (user & status & rows & _ & _ & _ & Hsub).
  eapply StronglySorted_sublist; [exact Hsub|apply run_select_sorted].
Qed.

Lemma suspended_ok_later log more past rows k :
  suspended_ok instant log past k →
  suspended_ok instant (log ++ more) (rows ++ past) k.
Proof.
  intros (Hfrom & Hid & Hq). split; [|done].
  by apply from_issued_query_later.
Qed.

Lemma fetch_ok_later log more q : fetch_ok log q → fetch_ok (log ++ more) q.
Proof.
  intros (user & status & Hq & Hlog). exists user, status.
  rewrite elem_of_app. auto.
Qed.

Lemma listings_later log more past rows l :
  l = [] ∨ from_issued_query instant log past l →
  l = [] ∨ from_issued_query instant (log ++ more) (rows ++ past) l.
Proof. intros [?|?]; [by left|right]. by apply from_issued_query_later. Qed.

Lemma run_effect_items w : World.items (run_effect w) = World.items w.
Proof.
  unfold run_effect. by destruct (fetchMyListings_start _ _) as [[??]?].
Qed.

Lemma world_ok_run_effect past w :
  world_ok instant past w → world_ok instant past (run_effect w).
Proof.
  intros (Hl & Hd & Hf & Hwf & Hpast). unfold run_effect.
  destruct (fetchMyListings_start_cases (World.deps w) (World.panel w))
    as [(user & session & _ & _ & ->)|[_ ->]];
    (split; [|split; [|split; [|split]]]); simpl; try done.
  - by apply (listings_later _ _ _ []).
  - eapply Forall_impl; [exact Hd|].
    intros k. apply (suspended_ok_later _ _ _ []).
  - apply Forall_app. split.
    + eapply Forall_impl; [exact Hf|]. intros q. apply fetch_ok_later.
    + apply Forall_singleton.
      exists user, (Deps.status (World.deps w)). split; [done|].
      rewrite elem_of_app, list_elem_of_singleton. by right.
  - by rewrite !app_nil_r.
  - by rewrite app_nil_r.
  - by rewrite !app_nil_r.
Qed.

Lemma world_ok_mount d rows :
  table_wf rows → world_ok instant [rows] (mount d rows).
Proof.
  intros Hwf. apply world_ok_run_effect.
  split; [by left|]. split; [constructor|]. split; [constructor|].
  split; [done|]. apply list_elem_of_here.
Qed.

Lemma Forall_delete {A} (P : A → Prop) (l : list A) i :
  Forall P l → Forall P (delete i l).
Proof.
  intros Hl. apply Forall_forall. intros x Hx.
  eapply Forall_forall in Hl; [exact Hl|].
  eapply sublist_subseteq; [apply sublist_delete|exact Hx].
Qed.

(** The invariant survives a change of the table's history that keeps the
    current table in it. *)
Lemma world_ok_items past rows w :
  world_ok instant past w →
  table_wf rows →
  world_ok instant (rows :: past)
    (World.mk (World.deps w) (World.panel w) (World.fetches w)
              (World.deletes w) rows (World.log w)).
Proof.
  intros (Hl & Hd & Hf & Hwf & Hpast) Hrows.
  split; [|split; [|split; [|split]]]; simpl; try done.
  - rewrite <- (app_nil_r (World.log w)).
    by apply (listings_later _ _ _ [rows]).
  - eapply Forall_impl; [exact Hd|]. intros k Hk.
    rewrite <- (app_nil_r (World.log w)).
    by apply (suspended_ok_later _ _ _ [rows]).
  - apply list_elem_of_here.
Qed.

Lemma world_ok_step past w e w' :
  world_ok instant past w → step instant w e = Some w' →
  world_ok instant (World.items w' :: past) w'.
Proof.
  intros Hok Hstep. pose proof Hok as (Hl & Hd & Hf & Hwf & Hpast).
  destruct e as [d|i reply|listingId confirmed|i reply| |rows];
    simpl in Hstep.
  - (* the effect runs again *)
    injection Hstep as <-. rewrite run_effect_items. simpl.
    apply world_ok_run_effect.
    destruct (world_ok_items _ _ _ Hok Hwf) as (Hl' & Hd' & Hf' & ? & ?).
    by split; [|split; [|split; [|split]]].
  - (* a fetch settles *)
    destruct (World.fetches w !! i) as [q|] eqn:Hq; [|done].
    simpl in Hstep.
    pose proof Hf as Hfq. eapply Forall_lookup_1 in Hfq; [|exact Hq].
    destruct Hfq as (user & status & -> & Hlog).
    destruct (world_ok_items _ _ _ Hok Hwf) as (Hl' & Hd' & Hf' & _ & Hin).
    simpl in Hl', Hd', Hf', Hin.
    destruct reply as [|e|]; simpl in Hstep; injection Hstep as <-;
      (split; [|split; [|split; [|split]]]); simpl;
      try (by apply (listings_later _ _ _ [] _ Hl'));
      try (eapply Forall_impl;
           [exact Hd'|intros k; apply (suspended_ok_later _ _ _ [])]);
      try (apply Forall_delete; eapply Forall_impl;
           [exact Hf|intros q; apply fetch_ok_later]);
      try done.
    right. exists user, status, (World.items w).
    rewrite elem_of_app. auto.
  - (* the delete button *)
    destruct (decide (HandleDelete listingId ∈ _)) as [Hbutton|]; [|done].
    apply delete_button_on_screen in Hbutton.
    destruct (world_ok_items _ _ _ Hok Hwf) as (Hl' & Hd' & Hf' & _ & Hin).
    simpl in Hl', Hd', Hf', Hin.
    destruct confirmed; simpl in Hstep; injection Hstep as <-;
      (split; [|split; [|split; [|split]]]); simpl;
      try (by apply (listings_later _ _ _ [] _ Hl'));
      try (eapply Forall_impl; [exact Hf|intros q; apply fetch_ok_later]);
      try done.
    + apply Forall_app. split.
      * eapply Forall_impl; [exact Hd'|].
        intros k. apply (suspended_ok_later _ _ _ []).
      * apply Forall_singleton.
        assert (listingId ∈ Listing.id <$> Panel.listings (World.panel w))
          as Hid.
        { eapply sublist_subseteq; [|exact Hbutton].
          apply fmap_sublist, displayed_sublist. }
        split; [|split; [done|by eexists]]. simpl.
        destruct Hl' as [Hnil|Hfrom];
          [|by apply (from_issued_query_later _ _ _ [])].
        rewrite Hnil in Hid. by apply elem_of_nil in Hid.
    + rewrite app_nil_r. eapply Forall_impl; [exact Hd'|].
      intros k. apply (suspended_ok_later _ _ _ []).
  - (* a delete settles *)
    destruct (World.deletes w !! i) as [k|] eqn:Hk; [|done].
    simpl in Hstep.
    pose proof Hd as Hdk. eapply Forall_lookup_1 in Hdk; [|exact Hk].
    destruct Hdk as (Hfrom & Hid & Hquery).
    assert (table_wf (run_delete (World.items w) (Suspended.query k)))
      as Hwf' by by apply run_delete_wf.
    destruct reply as [|e|]; simpl in Hstep; injection Hstep as <-; simpl.
    + destruct (world_ok_items _ _ _ Hok Hwf') as (_ & Hd' & Hf' & _ & Hin).
      simpl in Hd', Hf', Hin.
      split; [|split; [|split; [|split]]]; simpl; try done.
      * right. apply (from_issued_query_later _ _ _ [_]).
        eapply from_issued_query_sublist; [apply sublist_filter|exact Hfrom].
      * apply Forall_delete. eapply Forall_impl; [exact Hd'|].
        intros k'. apply (suspended_ok_later _ _ _ []).
      * eapply Forall_impl; [exact Hf|]. intros q. apply fetch_ok_later.
    + destruct (world_ok_items _ _ _ Hok Hwf) as (Hl' & Hd' & Hf' & _ & Hin).
      simpl in Hl', Hd', Hf', Hin.
      split; [|split; [|split; [|split]]]; simpl; try done.
      * by apply (listings_later _ _ _ [] _ Hl').
      * apply Forall_delete. eapply Forall_impl; [exact Hd'|].
        intros k'. apply (suspended_ok_later _ _ _ []).
      * eapply Forall_impl; [exact Hf|]. intros q. apply fetch_ok_later.
    + destruct (world_ok_items _ _ _ Hok Hwf) as (Hl' & Hd' & Hf' & _ & Hin).
      simpl in Hl', Hd', Hf', Hin.
      split; [|split; [|split; [|split]]]; simpl; try done.
      * by apply (listings_later _ _ _ [] _ Hl').
      * apply Forall_delete. eapply Forall_impl; [exact Hd'|].
        intros k'. apply (suspended_ok_later _ _ _ []).
      * eapply Forall_impl; [exact Hf|]. intros q. apply fetch_ok_later.
  - (* the retry button *)
    destruct (render _ _) as [|message [| |]| |]; try done.
    injection Hstep as <-. unfold reload. rewrite run_effect_items. simpl.
    apply world_ok_run_effect.
    split; [by left|]. split; [constructor|]. split; [constructor|].
    split; [done|]. apply list_elem_of_here.
  - (* another client writes *)
    destruct (decide (table_wf rows)) as [Hrows|]; [|done].
    injection Hstep as <-. by apply world_ok_items.
Qed.

Lemma reachable_ok past w : reachable instant past w → world_ok instant past w.
Proof.
  induction 1 as [d rows Hwf|past w e w' _ IH Hstep].
  - by apply world_ok_mount.
  - by eapply world_ok_step.
Qed.

End InvariantFacts.

(** ** Runs *)

Lemma reachable_run instant past w es w' :
  reachable instant past w → run instant w es = Some w' →
  ∃ past', reachable instant past' w'.
Proof.
  revert past w. induction es as [|e es IH]; intros past w Hw Hrun;
    simpl in Hrun.
  - injection Hrun as <-. by exists past.
  - destruct (step instant w e) as [w1|] eqn:Hstep; [|done].
    simpl in Hrun. eapply IH; [|exact Hrun]. by eapply reachable_step.
Qed.

Lemma sample_world_reachable es :
  ∃ past, reachable Sample.instant past (Sample.world es).
Proof.
  assert (reachable Sample.instant [Sample.items] Sample.mounted) as Hm.
  { apply reachable_mount.
    apply (bool_decide_unpack (table_wf Sample.items)). by vm_compute. }
  unfold Sample.world.
  destruct (run Sample.instant Sample.mounted es) as [w|] eqn:Hrun.
  - by eapply reachable_run.
  - by eexists.
Qed.

Lemma sample_loaded_reachable :
  reachable Sample.instant [Sample.items; Sample.items] Sample.loaded.
Proof.
  apply (reachable_step Sample.instant [Sample.items] Sample.mounted
           (FetchSettles 0 Served) Sample.loaded); [|done].
  apply reachable_mount.
  apply (bool_decide_unpack (table_wf Sample.items)). by vm_compute.
Qed.

(** ** The properties of the specification *)

(** C1, as the code has it. In every reachable state the row list, and so
    the list on screen, is an in-order part of the rows that a read query
    sent by the panel returned on a state the table has been in; those are
    listings of that query's owner with that query's status, and the list is
    ordered by creation time descending. The owner and the status are those
    of the render that sent the query; a later response or a resumed delete
    can install such rows after the requested status or the identity has
    changed. *)
Theorem rows_come_from_an_issued_query instant past w :
  reachable instant past w →
  displayed (World.panel w) `sublist_of` Panel.listings (World.panel w)
  ∧ (Panel.listings (World.panel w) = []
     ∨ ∃ user status rows,
         Request (listings_query user status) ∈ World.log w
         ∧ rows ∈ past
         ∧ Panel.listings (World.panel w) `sublist_of`
             run_select instant rows (listings_query user status)
         ∧ Panel.listings (World.panel w) ⊆
             Item.listing <$> owned_with_status user status rows)
  ∧ StronglySorted (newer_or_same instant) (Panel.listings (World.panel w))
  ∧ StronglySorted (newer_or_same instant) (displayed (World.panel w)).
Proof.
  intros Hw. apply reachable_ok in Hw as (Hl & _).
  split; [apply displayed_sublist|].
  assert (StronglySorted (newer_or_same instant)
            (Panel.listings (World.panel w))) as Hsorted.
  { destruct Hl as [->|Hfrom]; [constructor|].
    by eapply from_issued_query_sorted. }
  split; [|split; [done|]].
  - destruct Hl as [?|(user & status & rows & Hlog & Hpast & _ & Hsub)];
      [by left|].
    right. exists user, status, rows. repeat split; [done..|].
    intros l Hl. rewrite <- run_select_Permutation.
    by eapply sublist_subseteq.
  - eapply StronglySorted_sublist; [apply displayed_sublist|done].
Qed.

Lemma rows_come_from_an_issued_query_witness :
  reachable Sample.instant [Sample.items; Sample.items] Sample.loaded
  ∧ StronglySorted (newer_or_same Sample.instant)
      (displayed (World.panel Sample.loaded)).
Proof.
  split; [apply sample_loaded_reachable|].
  apply (rows_come_from_an_issued_query Sample.instant
           [Sample.items; Sample.items] Sample.loaded).
  apply sample_loaded_reachable.
Defined.

(** C1, as the specification words it, fails: after the status prop changes
    from "active" to "closed" while the first fetch is still in flight, and
    the first response arrives last, the panel of a signed-in owner shows
    "active" rows although "closed" is requested. *)
Lemma late_response_shows_other_status :
  (∃ past, reachable Sample.instant past (Sample.world Sample.late_response))
  ∧ Deps.status (World.deps (Sample.world Sample.late_response)) = closed
  ∧ displayed (World.panel (Sample.world Sample.late_response))
    = [Sample.phone; Sample.keys]
  ∧ ¬ shows_requested_rows Sample.instant
        (Sample.world Sample.late_response).
Proof.
  split; [apply sample_world_reachable|]. split; [done|]. split; [done|].
  intros [Hsub _]. vm_compute in Hsub.
  specialize (Hsub Sample.phone (list_elem_of_here _ _)).
  apply list_elem_of_singleton in Hsub. discriminate Hsub.
Qed.

(** C3. Mounted without an authenticated identity (no user, or no session),
    the panel is not loading, holds no rows and no error, sends no query and
    leaves nothing in flight; it shows the empty state. *)
Theorem mount_without_identity d rows :
  Deps.user d = None ∨ Deps.session d = None →
  World.panel (mount d rows) = Panel.mk [] false None
  ∧ World.log (mount d rows) = []
  ∧ World.fetches (mount d rows) = []
  ∧ World.deletes (mount d rows) = []
  ∧ render (Deps.status d) (World.panel (mount d rows))
    = EmptyView (Deps.status d) "/listing/create".
Proof.
  intros Hnone. unfold mount, run_effect. simpl.
  by rewrite (fetchMyListings_start_signed_out _ _ Hnone).
Qed.

Lemma mount_without_identity_witness :
  World.panel (mount (Sample.signed_out active) Sample.items)
  = Panel.mk [] false None
  ∧ World.log (mount (Sample.signed_out active) Sample.items) = [].
Proof.
  destruct (mount_without_identity (Sample.signed_out active) Sample.items)
    as (Hpanel & Hlog & _); [by left|].
  by split.
Defined.

Lemma split_at_identifier (l : list Listing.t) listingId :
  listingId ∈ Listing.id <$> l →
  ∃ front row back,
    l = (front ++ row :: back)%list ∧ Listing.id row = listingId.
Proof.
  intros (row & -> & Hrow)%list_elem_of_fmap.
  apply list_elem_of_split in Hrow as (front & back & ->).
  by exists front, row, back.
Qed.

(** C4. For every list on screen and every row of it: when the delete
    button of the row is pressed, the confirmation accepted and the request
    answered without error, the row list becomes the list with that one row
    taken out, the others kept in their order; the only request sent is the
    delete, and no fetch is started. The same holds of a delete that settles
    later, for the list that was on screen when its button was pressed. *)
Theorem successful_delete_removes_one_row instant past w :
  reachable instant past w →
  (∀ front row back,
     displayed (World.panel w) = (front ++ row :: back)%list →
     ∃ w1 w2,
       step instant w (ClickDelete (Listing.id row) true) = Some w1
       ∧ step instant w1 (DeleteSettles (length (World.deletes w)) Served)
         = Some w2
       ∧ Panel.listings (World.panel w2) = (front ++ back)%list
       ∧ displayed (World.panel w2) = (front ++ back)%list
       ∧ World.fetches w2 = World.fetches w
       ∧ World.log w2 =
         (World.log w ++
          [Confirm confirm_message;
           Request (delete_query (Listing.id row)
                                 (Deps.user (World.deps w)))])%list)
  ∧ (∀ i k w',
       World.deletes w !! i = Some k →
       step instant w (DeleteSettles i Served) = Some w' →
       ∃ front row back,
         Suspended.listings k = (front ++ row :: back)%list
         ∧ Listing.id row = Suspended.listingId k
         ∧ Panel.listings (World.panel w') = (front ++ back)%list
         ∧ World.fetches w' = World.fetches w
         ∧ World.log w' = World.log w).
Proof.
  intros Hw. split.
  - intros front row back Hshown.
    assert (Panel.isLoading (World.panel w) = false
            ∧ truthy (Panel.error (World.panel w)) = false
            ∧ Panel.listings (World.panel w) = (front ++ row :: back)%list)
      as (Hloading & Herror & Hrows).
    { unfold displayed in Hshown.
      destruct (Panel.isLoading (World.panel w));
        [by destruct front|].
      destruct (truthy (Panel.error (World.panel w)));
        [by destruct front|done]. }
    assert (NoDup (Listing.id <$> (front ++ row :: back)%list)) as Hnodup.
    { apply reachable_ok in Hw as ([Hnil|Hfrom] & _).
      - rewrite Hrows in Hnil. by destruct front.
      - rewrite <- Hrows. by eapply from_issued_query_NoDup. }
    eexists _, _. split; [|split].
    + simpl. rewrite decide_True; [reflexivity|].
      apply delete_button_on_screen. rewrite Hshown.
      apply list_elem_of_fmap. exists row. split; [done|].
      apply elem_of_app. right. apply list_elem_of_here.
    + simpl. rewrite list_lookup_middle by done. simpl. reflexivity.
    + simpl. rewrite Hrows, (filter_removes_one _ _ _ Hnodup).
      unfold displayed. simpl. rewrite Hloading, Herror.
      by rewrite app_nil_r.
  - intros i k w' Hk Hstep.
    apply reachable_ok in Hw as (_ & Hd & _).
    eapply Forall_lookup_1 in Hd as (Hfrom & Hid & _); [|exact Hk].
    apply from_issued_query_NoDup in Hfrom.
    apply split_at_identifier in Hid as (front & row & back & Hsplit & Hrow).
    exists front, row, back. split; [done|]. split; [done|].
    simpl in Hstep. rewrite Hk in Hstep. simpl in Hstep.
    injection Hstep as <-. simpl.
    rewrite Hsplit in Hfrom |- *. rewrite <- Hrow.
    by rewrite (filter_removes_one _ _ _ Hfrom), app_nil_r.
Qed.

Lemma successful_delete_removes_one_row_witness :
  ∃ w1 w2,
    step Sample.instant Sample.loaded (ClickDelete "k1" true) = Some w1
    ∧ step Sample.instant w1 (DeleteSettles 0 Served) = Some w2
    ∧ Panel.listings (World.panel w2) = [Sample.phone].
Proof.
  destruct (successful_delete_removes_one_row Sample.instant
              [Sample.items; Sample.items] Sample.loaded)
    as [Hclick _]; [apply sample_loaded_reachable|].
  destruct (Hclick [Sample.phone] Sample.keys [])
    as (w1 & w2 & H1 & H2 & H3 & _); [reflexivity|].
  exists w1, w2. split; [exact H1|]. split; [exact H2|exact H3].
Defined.

(** C5. When the delete request fails, by an error in the response or by a
    thrown exception, an alert is shown and the panel state, and with it
    the list on screen, stays as it was; the table is not changed either. *)
Theorem failed_delete_alerts_and_keeps_rows instant w i reply w' :
  reply ≠ Served →
  step instant w (DeleteSettles i reply) = Some w' →
  World.panel w' = World.panel w
  ∧ displayed (World.panel w') = displayed (World.panel w)
  ∧ World.items w' = World.items w
  ∧ (∃ label,
       World.log w' =
       (World.log w ++
        [ConsoleError label; Alert "Failed to delete listing"])%list)
  ∧ (∀ r k p,
       failed r = true →
       (handleDelete_resume r k p).1 = p
       ∧ Alert "Failed to delete listing" ∈ (handleDelete_resume r k p).2).
Proof.
  intros Hreply Hstep. simpl in Hstep.
  destruct (World.deletes w !! i) as [k|]; [|done]. simpl in Hstep.
  assert (∀ r k p,
            failed r = true →
            (handleDelete_resume r k p).1 = p
            ∧ Alert "Failed to delete listing" ∈ (handleDelete_resume r k p).2)
    as Hhandler.
  { intros r k' p Hr.
    destruct (handleDelete_resume_failed r k' p Hr) as [label ->].
    split; [done|]. apply list_elem_of_further, list_elem_of_here. }
  destruct reply as [|e|]; [done|..]; simpl in Hstep;
    injection Hstep as <-; simpl;
    (split; [done|]); (split; [done|]); (split; [done|]);
    (split; [by eexists|exact Hhandler]).
Qed.

Lemma failed_delete_alerts_and_keeps_rows_witness :
  World.panel
    (Sample.world [FetchSettles 0 Served; ClickDelete "k1" true;
                   DeleteSettles 0 (Refused "permission denied")])
  = World.panel Sample.loaded.
Proof.
  refine (proj1 (failed_delete_alerts_and_keeps_rows Sample.instant
            (Sample.world [FetchSettles 0 Served; ClickDelete "k1" true])
            0 (Refused "permission denied") _ _ _)).
  - discriminate.
  - reflexivity.
Defined.

Lemma run_effect_sends_no_delete w :
  ∃ effects,
    World.log (run_effect w) = (World.log w ++ effects)%list
    ∧ ∀ q, Request q ∈ effects → is_delete q = false.
Proof.
  unfold run_effect.
  destruct (fetchMyListings_start_cases (World.deps w) (World.panel w))
    as [(user & session & _ & _ & ->)|[_ ->]]; simpl;
    eexists; (split; [reflexivity|]); intros q Hq.
  - apply list_elem_of_singleton in Hq. by injection Hq as ->.
  - by apply elem_of_nil in Hq.
Qed.

(** C6. Whatever the panel does, a delete request it sends is the one built
    for the pressed row and the user of the current render: it is filtered
    by the listing's id and by that user's id. Executing it leaves every row
    of the table that belongs to anyone else in place. *)
Theorem delete_requests_are_scoped_to_the_owner instant w e w' :
  step instant w e = Some w' →
  ∃ effects,
    World.log w' = (World.log w ++ effects)%list
    ∧ ∀ q, Request q ∈ effects → is_delete q = true →
        ∃ listingId,
          e = ClickDelete listingId true
          ∧ listingId ∈ Listing.id <$> displayed (World.panel w)
          ∧ q = delete_query listingId (Deps.user (World.deps w))
          ∧ Query.table q = "items"
          ∧ Query.filters q =
            [Eq "id" (Some listingId);
             Eq "user_id" (User.id <$> Deps.user (World.deps w))]
          ∧ ∀ rows row,
              row ∈ rows →
              Some (Item.user_id row) ≠ User.id <$> Deps.user (World.deps w) →
              row ∈ run_delete rows q.
Proof.
  intros Hstep.
  destruct e as [d|i reply|listingId confirmed|i reply| |rows];
    simpl in Hstep.
  - injection Hstep as <-.
    destruct (run_effect_sends_no_delete
                (World.mk d (World.panel w) (World.fetches w)
                          (World.deletes w) (World.items w) (World.log w)))
      as (effects & Hlog & Hnone).
    exists effects. split; [exact Hlog|].
    intros q Hq Hdel. apply Hnone in Hq. congruence.
  - destruct (World.fetches w !! i) as [q0|]; [|done]. simpl in Hstep.
    destruct reply as [|err|]; simpl in Hstep; injection Hstep as <-;
      simpl; eexists; (split; [reflexivity|]); intros q Hq Hdel.
    + by apply elem_of_nil in Hq.
    + apply list_elem_of_singleton in Hq. done.
    + apply list_elem_of_singleton in Hq. done.
  - destruct (decide (HandleDelete listingId ∈ _)) as [Hbutton|]; [|done].
    apply delete_button_on_screen in Hbutton.
    destruct confirmed; simpl in Hstep; injection Hstep as <-; simpl;
      eexists; (split; [reflexivity|]); intros q Hq Hdel.
    + apply elem_of_cons in Hq as [Hq|Hq]; [done|].
      apply list_elem_of_singleton in Hq. injection Hq as ->.
      exists listingId. repeat split; [done|].
      intros rows row Hrow Hother. unfold run_delete.
      apply list_elem_of_filter. split; [|done].
      rewrite selected_delete_query. by intros [_ Howner].
    + apply list_elem_of_singleton in Hq. done.
  - destruct (World.deletes w !! i) as [k|]; [|done]. simpl in Hstep.
    destruct reply as [|err|]; simpl in Hstep; injection Hstep as <-;
      simpl; eexists; (split; [reflexivity|]); intros q Hq Hdel.
    + by apply elem_of_nil in Hq.
    + apply elem_of_cons in Hq as [Hq|Hq]; [done|].
      apply list_elem_of_singleton in Hq. done.
    + apply elem_of_cons in Hq as [Hq|Hq]; [done|].
      apply list_elem_of_singleton in Hq. done.
  - destruct (render _ _) as [|message [| |]| |]; try done.
    injection Hstep as <-. unfold reload.
    destruct (run_effect_sends_no_delete
                (World.mk (World.deps w) initial_panel [] []
                          (World.items w) (World.log w)))
      as (effects & Hlog & Hnone).
    exists effects. split; [exact Hlog|].
    intros q Hq Hdel. apply Hnone in Hq. congruence.
  - destruct (decide (table_wf rows)); [|done].
    injection Hstep as <-. simpl. exists [].
    split; [by rewrite app_nil_r|]. intros q Hq. by apply elem_of_nil in Hq.
Qed.

Lemma delete_requests_are_scoped_to_the_owner_witness :
  ∃ effects,
    World.log (Sample.world [FetchSettles 0 Served; ClickDelete "k1" true])
    = (World.log Sample.loaded ++ effects)%list.
Proof.
  destruct (delete_requests_are_scoped_to_the_owner Sample.instant
              Sample.loaded (ClickDelete "k1" true)
              (Sample.world [FetchSettles 0 Served; ClickDelete "k1" true]))
    as (effects & Hlog & _).
  - reflexivity.
  - by exists effects.
Defined.

(** C7. The delete button asks for confirmation before anything else; when
    the confirmation is declined, no request is sent, nothing is left in
    flight, and the row list, the rest of the panel state and the table are
    as before: the only trace is the prompt itself. *)
Theorem declined_confirmation_changes_nothing instant w listingId w' :
  step instant w (ClickDelete listingId false) = Some w' →
  w' = World.mk (World.deps w) (World.panel w) (World.fetches w)
                (World.deletes w) (World.items w)
                (World.log w ++ [Confirm confirm_message])
  ∧ (∀ q, Request q ∉ [Confirm confirm_message])
  ∧ (∀ user listings,
       handleDelete_start false user listings listingId
       = ([Confirm confirm_message], None))
  ∧ (∀ confirmed user listings,
       head (handleDelete_start confirmed user listings listingId).1
       = Some (Confirm confirm_message)).
Proof.
  intros Hstep. simpl in Hstep.
  destruct (decide (HandleDelete listingId ∈ _)); [|done].
  simpl in Hstep. injection Hstep as <-. rewrite app_nil_r.
  repeat split.
  - intros q Hq. apply list_elem_of_singleton in Hq. done.
  - by intros [] ??.
Qed.

Lemma declined_confirmation_changes_nothing_witness :
  World.panel (Sample.world [FetchSettles 0 Served; ClickDelete "k1" false])
  = World.panel Sample.loaded
  ∧ World.deletes
      (Sample.world [FetchSettles 0 Served; ClickDelete "k1" false]) = [].
Proof.
  destruct (declined_confirmation_changes_nothing Sample.instant
              Sample.loaded "k1"
              (Sample.world [FetchSettles 0 Served; ClickDelete "k1" false]))
    as [Hw _]; [reflexivity|].
  rewrite Hw. by split.
Defined.

(** C8. For every signed-in owner and status filter, [fetchMyListings]
    sends one read query on the items table, filtered by the owner's id and
    by the status. The backend answers it with exactly the listings of that
    owner with that status, newest first, and once the answer has arrived
    without error the panel renders one card per returned row, in the order
    of the rows. *)
Theorem fetch_selects_owner_rows_and_renders_them
    instant user session status p :
  let d := Deps.mk (Some user) (Some session) status in
  let q := listings_query user status in
  let p1 := (fetchMyListings_start d p).1.1 in
  fetchMyListings_start d p = (p1, [Request q], Some q)
  ∧ Query.table q = "items"
  ∧ Query.filters q =
    [Eq "user_id" (Some (User.id user)); Eq "status" (Some (status_tag status))]
  ∧ Query.ordering q = Some ("created_at", false)
  ∧ (∀ rows,
       run_select instant rows q ≡ₚ
         Item.listing <$> owned_with_status user status rows
       ∧ StronglySorted (newer_or_same instant) (run_select instant rows q))
  ∧ (∀ data,
       let p2 :=
         (fetchMyListings_resume (Resolved (Response.mk data None)) p1).1 in
       Panel.listings p2 = or_empty data
       ∧ cards_of (render status p2) = card <$> or_empty data
       ∧ length (cards_of (render status p2)) = length (or_empty data)
       ∧ Card.key <$> cards_of (render status p2)
         = Listing.id <$> or_empty data)
  ∧ (∀ rows,
       run instant (mount d rows) [FetchSettles 0 Served]
       = Some (World.mk d (Panel.mk (run_select instant rows q) false None)
                        [] [] rows [Request q]))
  ∧ (∀ w i q' w',
       World.fetches w !! i = Some q' →
       truthy (Panel.error (World.panel w)) = false →
       step instant w (FetchSettles i Served) = Some w' →
       cards_of (render (Deps.status (World.deps w')) (World.panel w'))
       = card <$> run_select instant (World.items w) q').
Proof.
  simpl. repeat split.
  - apply run_select_Permutation.
  - apply run_select_sorted.
  - rewrite cards_of_render. done.
  - rewrite cards_of_render. unfold displayed. simpl. by rewrite length_fmap.
  - rewrite cards_of_render, <- list_fmap_compose. done.
  - intros w i q' w' Hq Herror Hstep. simpl in Hstep.
    rewrite Hq in Hstep. simpl in Hstep. injection Hstep as <-.
    rewrite cards_of_render. unfold displayed. simpl. by rewrite Herror.
Qed.

Lemma fetch_selects_owner_rows_and_renders_them_witness :
  cards_of (render active (World.panel Sample.loaded))
  = [card Sample.phone; card Sample.keys].
Proof.
  refine (proj2 (proj2 (proj2 (proj2 (proj2 (proj2 (proj2
    (fetch_selects_owner_rows_and_renders_them Sample.instant Sample.alice
       Sample.token active initial_panel)))))))
    Sample.mounted 0 (listings_query Sample.alice active) Sample.loaded
    _ _ _); reflexivity.
Defined.

(** C9. When the read query fails, by an error in the response or by a
    thrown exception, the panel renders the error branch: the message
    "Failed to load listings" and a retry control. Pressing the control
    reloads the page, which drops what was in flight and mounts the
    component again. *)
Theorem failed_fetch_renders_error_with_retry instant w i reply w' :
  reply ≠ Served →
  step instant w (FetchSettles i reply) = Some w' →
  Panel.isLoading (World.panel w') = false
  ∧ Panel.error (World.panel w') = Some "Failed to load listings"
  ∧ render (Deps.status (World.deps w')) (World.panel w')
    = ErrorView "Failed to load listings" WindowLocationReload
  ∧ step instant w' ClickRetry = Some (reload w')
  ∧ World.panel (reload w')
    = World.panel (mount (World.deps w') (World.items w'))
  ∧ World.fetches (reload w')
    = World.fetches (mount (World.deps w') (World.items w'))
  ∧ World.deletes (reload w') = []
  ∧ (∀ r p status,
       failed r = true →
       render status (fetchMyListings_resume r p).1
       = ErrorView "Failed to load listings" WindowLocationReload).
Proof.
  intros Hreply Hstep. simpl in Hstep.
  destruct (World.fetches w !! i) as [q|]; [|done]. simpl in Hstep.
  assert (World.panel w' =
          Panel.mk (Panel.listings (World.panel w)) false
                   (Some "Failed to load listings")) as Hpanel.
  { destruct reply as [|e|]; [done|..]; simpl in Hstep;
      by injection Hstep as <-. }
  assert (render (Deps.status (World.deps w')) (World.panel w')
          = ErrorView "Failed to load listings" WindowLocationReload)
    as Hview by (by rewrite Hpanel).
  split; [by rewrite Hpanel|]. split; [by rewrite Hpanel|].
  split; [exact Hview|]. split; [simpl; by rewrite Hview|].
  assert (∀ r p status,
            failed r = true →
            render status (fetchMyListings_resume r p).1
            = ErrorView "Failed to load listings" WindowLocationReload)
    as Hhandler.
  { intros r p status Hr.
    by destruct (fetchMyListings_resume_failed r p Hr) as [label ->]. }
  unfold reload, mount, run_effect. simpl.
  destruct (fetchMyListings_start _ _) as [[??]?]. simpl.
  split; [done|]. split; [done|]. split; [done|exact Hhandler].
Qed.

Lemma failed_fetch_renders_error_with_retry_witness :
  render active (World.panel (Sample.world [FetchSettles 0 Threw]))
  = ErrorView "Failed to load listings" WindowLocationReload.
Proof.
  refine (proj1 (proj2 (proj2
    (failed_fetch_renders_error_with_retry Sample.instant Sample.mounted 0
       Threw (Sample.world [FetchSettles 0 Threw]) _ _)))).
  - discriminate.
  - reflexivity.
Defined.

(** * Further properties of the code *)

(** ** What the cards show *)

Lemma join_starts sep c s rest :
  ∃ t, join sep (String c s :: rest) = String c t.
Proof.
  destruct rest as [|y rest]; [by eexists|].
  change (join sep (String c s :: y :: rest))
    with (String c s +:+ sep +:+ join sep (y :: rest)).
  rewrite append_cons. by eexists.
Qed.

Lemma getLocationString_starts location :
  ∃ c t, getLocationString location = String c t.
Proof.
  destruct location as [location|]; [|by eexists _, _].
  unfold getLocationString.
  rewrite !push_if_truthy_present, <- !(assoc_L (++)%list). simpl.
  destruct (present (Location.address location) ++
            present (Location.district location) ++
            present (Location.province location))%list
    as [|first rest] eqn:E; [by eexists _, _|].
  assert (first ≠ "") as Hfirst.
  { intros ->.
    assert ("" ∈ (present (Location.address location) ++
                  present (Location.district location) ++
                  present (Location.province location))%list) as Hin
      by (rewrite E; apply list_elem_of_here).
    rewrite !elem_of_app in Hin.
    destruct Hin as [H|[H|H]]; by apply present_not_empty in H. }
  destruct first as [|c s]; [done|].
  destruct (join_starts ", " c s rest) as [t Ht].
  change (0 <? length (String c s :: rest))%nat with true.
  cbv iota. rewrite Ht. by eexists _, _.
Qed.

(** X1. [getLocationString] never returns the empty text: the location line
    of a card always has at least one character to show. *)
Theorem getLocationString_not_empty location :
  getLocationString location ≠ ""
  ∧ 0 < String.length (getLocationString location).
Proof.
  destruct (getLocationString_starts location) as (c & t & ->).
  split; [done|]. simpl. lia.
Qed.

Lemma or_else_not_empty o d : d ≠ "" → or_else o d ≠ "".
Proof.
  intros Hd. destruct o as [s|]; simpl; [|done].
  unfold truthy_string. by destruct (decide (s = "")).
Qed.

(** X2. Whatever the row holds, its card has an image source, a category
    line and a location line that are not empty: a missing or empty media
    URL, category name or location falls back to the placeholder texts. *)
Theorem card_lines_not_empty listing :
  Card.img_src (card listing) ≠ ""
  ∧ Card.category_line (card listing) ≠ ""
  ∧ Card.location_line (card listing) ≠ ""
  ∧ (Listing.media listing = [] →
     Card.img_src (card listing) = "/placeholder.svg")
  ∧ (Listing.category listing = None →
     Card.category_line (card listing) = "Uncategorized").
Proof.
  split; [by apply or_else_not_empty|].
  split; [by apply or_else_not_empty|].
  split.
  { simpl. by destruct (getLocationString_starts (Listing.location listing))
      as (c & t & ->). }
  split; simpl; by intros ->.
Qed.

Lemma card_lines_not_empty_witness :
  Card.img_src (card Sample.keys) = "/placeholder.svg"
  ∧ Card.category_line (card Sample.keys) = "Uncategorized".
Proof.
  destruct (card_lines_not_empty Sample.keys) as (_ & _ & _ & Hsrc & Hcat).
  split; [by apply Hsrc|by apply Hcat].
Defined.

(** ** What a step adds to the effect log *)

Lemma run_effect_log w :
  World.log (run_effect w) = World.log w
  ∨ ∃ user session,
      Deps.user (World.deps w) = Some user
      ∧ Deps.session (World.deps w) = Some session
      ∧ World.log (run_effect w) =
        (World.log w ++
         [Request (listings_query user (Deps.status (World.deps w)))])%list.
Proof.
  unfold run_effect.
  destruct (fetchMyListings_start_cases (World.deps w) (World.panel w))
    as [(user & session & Hu & Hs & ->)|[_ ->]]; simpl.
  - right. by exists user, session.
  - left. by rewrite app_nil_r.
Qed.

Lemma step_log instant w e w' :
  step instant w e = Some w' →
  ∃ effects,
    World.log w' = (World.log w ++ effects)%list
    ∧ match e with
      | Rerender _ | ClickRetry =>
          effects = [] ∨ ∃ user status,
            effects = [Request (listings_query user status)]
      | FetchSettles _ reply =>
          match reply with
          | Served => effects = []
          | _ => ∃ label, effects = [ConsoleError label]
          end
      | ClickDelete listingId confirmed =>
          effects =
          Confirm confirm_message ::
          (if confirmed
           then [Request (delete_query listingId
                                       (Deps.user (World.deps w)))]
           else [])
      | DeleteSettles _ reply =>
          match reply with
          | Served => effects = []
          | _ => ∃ label,
              effects = [ConsoleError label; Alert "Failed to delete listing"]
          end
      | OtherWrite _ => effects = []
      end.
Proof.
  intros Hstep.
  destruct e as [d|i reply|listingId confirmed|i reply| |rows];
    simpl in Hstep.
  - injection Hstep as <-.
    destruct (run_effect_log
                (World.mk d (World.panel w) (World.fetches w)
                          (World.deletes w) (World.items w) (World.log w)))
      as [Hlog|(user & session & _ & _ & Hlog)]; simpl in Hlog.
    + exists []. rewrite app_nil_r. split; [done|by left].
    + eexists. split; [exact Hlog|]. right. by eexists _, _.
  - destruct (World.fetches w !! i) as [q|]; [|done]. simpl in Hstep.
    destruct reply as [|err|]; simpl in Hstep; injection Hstep as <-;
      simpl; eexists; (split; [reflexivity|]); by eauto.
  - destruct (decide (HandleDelete listingId ∈ _)); [|done].
    destruct confirmed; simpl in Hstep; injection Hstep as <-; simpl;
      eexists; (split; [reflexivity|]); done.
  - destruct (World.deletes w !! i) as [k|]; [|done]. simpl in Hstep.
    destruct reply as [|err|]; simpl in Hstep; injection Hstep as <-;
      simpl; eexists; (split; [reflexivity|]); by eauto.
  - destruct (render _ _) as [|message [| |]| |]; try done.
    injection Hstep as <-. unfold reload.
    destruct (run_effect_log
                (World.mk (World.deps w) initial_panel [] []
                          (World.items w) (World.log w)))
      as [Hlog|(user & session & _ & _ & Hlog)]; simpl in Hlog.
    + exists []. rewrite app_nil_r. split; [done|by left].
    + eexists. split; [exact Hlog|]. right. by eexists _, _.
  - destruct (decide (table_wf rows)); [|done].
    injection Hstep as <-. simpl. exists []. by rewrite app_nil_r.
Qed.

(** ** Invariants of the running panel *)

(** X3. In every reachable state the cards on screen have pairwise distinct
    React keys. *)
Theorem card_keys_distinct instant past w status :
  reachable instant past w →
  NoDup (Card.key <$> cards_of (render status (World.panel w))).
Proof.
  intros Hw. rewrite cards_of_render, <- list_fmap_compose.
  change (Card.key ∘ card) with Listing.id.
  assert (NoDup (Listing.id <$> Panel.listings (World.panel w))) as Hnd.
  { apply reachable_ok in Hw as ([->|Hfrom] & _); [constructor|].
    by eapply from_issued_query_NoDup. }
  refine (sublist_NoDup _ _ Hnd _).
  apply fmap_sublist, displayed_sublist.
Qed.

Lemma card_keys_distinct_witness :
  NoDup (Card.key <$> cards_of (render active (World.panel Sample.loaded))).
Proof.
  apply (card_keys_distinct Sample.instant [Sample.items; Sample.items]).
  apply sample_loaded_reachable.
Defined.

Lemma run_effect_spinner w :
  Panel.isLoading (World.panel (run_effect w)) = true →
  World.fetches (run_effect w) ≠ [].
Proof.
  unfold run_effect.
  destruct (fetchMyListings_start_cases (World.deps w) (World.panel w))
    as [(user & session & _ & _ & ->)|[_ ->]]; simpl; [|done].
  intros _ Hnil. by apply app_nil in Hnil as [_ ?].
Qed.

(** X4. The spinner never turns without a request in flight: in every
    reachable state in which [isLoading] is set, a fetch is pending, so a
    response that clears the flag can still arrive. *)
Theorem spinner_has_a_fetch_in_flight instant past w :
  reachable instant past w →
  Panel.isLoading (World.panel w) = true →
  World.fetches w ≠ [].
Proof.
  induction 1 as [d rows Hwf|past w e w' _ IH Hstep].
  - apply run_effect_spinner.
  - destruct e as [d|i reply|listingId confirmed|i reply| |rows];
      simpl in Hstep.
    + injection Hstep as <-. apply run_effect_spinner.
    + destruct (World.fetches w !! i) as [q|]; [|done]. simpl in Hstep.
      destruct reply as [|err|]; simpl in Hstep; by injection Hstep as <-.
    + destruct (decide (HandleDelete listingId ∈ _)); [|done].
      destruct confirmed; simpl in Hstep; by injection Hstep as <-.
    + destruct (World.deletes w !! i) as [k|]; [|done]. simpl in Hstep.
      destruct reply as [|err|]; simpl in Hstep; by injection Hstep as <-.
    + destruct (render _ _) as [|message [| |]| |]; try done.
      injection Hstep as <-. apply run_effect_spinner.
    + destruct (decide (table_wf rows)); [|done]. by injection Hstep as <-.
Qed.

Lemma spinner_has_a_fetch_in_flight_witness :
  World.fetches Sample.mounted ≠ [].
Proof.
  apply (spinner_has_a_fetch_in_flight Sample.instant [Sample.items]).
  - apply reachable_mount.
    apply (bool_decide_unpack (table_wf Sample.items)). by vm_compute.
  - reflexivity.
Defined.

Lemma run_effect_error w :
  Panel.error (World.panel (run_effect w)) = None
  ∨ Panel.error (World.panel (run_effect w)) = Panel.error (World.panel w).
Proof.
  unfold run_effect.
  destruct (fetchMyListings_start_cases (World.deps w) (World.panel w))
    as [(user & session & _ & _ & ->)|[_ ->]]; simpl; auto.
Qed.

(** X5. The only error text the panel ever holds is "Failed to load
    listings": what the backend reports is logged, never shown. *)
Theorem error_text_is_fixed instant past w :
  reachable instant past w →
  Panel.error (World.panel w) = None
  ∨ Panel.error (World.panel w) = Some "Failed to load listings".
Proof.
  induction 1 as [d rows Hwf|past w e w' _ IH Hstep].
  - unfold mount.
    destruct (run_effect_error (World.mk d initial_panel [] [] rows []))
      as [->| ->]; auto.
  - destruct e as [d|i reply|listingId confirmed|i reply| |rows];
      simpl in Hstep.
    + injection Hstep as <-.
      destruct (run_effect_error
                  (World.mk d (World.panel w) (World.fetches w)
                            (World.deletes w) (World.items w) (World.log w)))
        as [->| ->]; auto.
    + destruct (World.fetches w !! i) as [q|]; [|done]. simpl in Hstep.
      destruct reply as [|err|]; simpl in Hstep; injection Hstep as <-;
        simpl; auto.
    + destruct (decide (HandleDelete listingId ∈ _)); [|done].
      destruct confirmed; simpl in Hstep; by injection Hstep as <-.
    + destruct (World.deletes w !! i) as [k|]; [|done]. simpl in Hstep.
      destruct reply as [|err|]; simpl in Hstep; by injection Hstep as <-.
    + destruct (render _ _) as [|message [| |]| |]; try done.
      injection Hstep as <-. unfold reload.
      destruct (run_effect_error
                  (World.mk (World.deps w) initial_panel [] []
                            (World.items w) (World.log w)))
        as [->| ->]; auto.
    + destruct (decide (table_wf rows)); [|done]. by injection Hstep as <-.
Qed.

Lemma error_text_is_fixed_witness :
  Panel.error
    (World.panel (Sample.world [FetchSettles 0 (Refused "timeout")]))
  = Some "Failed to load listings".
Proof.
  destruct (error_text_is_fixed Sample.instant [Sample.items; Sample.items]
              (Sample.world [FetchSettles 0 (Refused "timeout")]))
    as [Hnone|Hsome].
  - apply (reachable_step Sample.instant [Sample.items] Sample.mounted
             (FetchSettles 0 (Refused "timeout"))
             (Sample.world [FetchSettles 0 (Refused "timeout")])); [|done].
    apply reachable_mount.
    apply (bool_decide_unpack (table_wf Sample.items)). by vm_compute.
  - discriminate Hnone.
  - exact Hsome.
Defined.

(** X6. Every request the panel ever sends goes to the items table and is
    one of two shapes: the read query of [fetchMyListings] for a signed-in
    user and a status, or the delete of [handleDelete]; in both the rows are
    filtered by [user_id]. No other table is touched and no read goes out
    without the owner filter. *)
Theorem every_request_is_scoped instant past w q :
  reachable instant past w →
  Request q ∈ World.log w →
  Query.table q = "items"
  ∧ (∃ owner, Eq "user_id" owner ∈ Query.filters q)
  ∧ ((∃ user status, q = listings_query user status)
     ∨ (∃ listingId user, q = delete_query listingId user)).
Proof.
  intros Hw Hq.
  assert ((∃ user status, q = listings_query user status)
          ∨ (∃ listingId user, q = delete_query listingId user)) as Hshape.
  { revert Hq. induction Hw as [d rows Hwf|past w e w' _ IH Hstep].
    - unfold mount.
      destruct (run_effect_log (World.mk d initial_panel [] [] rows []))
        as [->|(user & session & _ & _ & ->)]; simpl.
      + by intros ?%elem_of_nil.
      + intros Hq%list_elem_of_singleton. injection Hq as ->.
        left. by eexists _, _.
    - destruct (step_log _ _ _ _ Hstep) as (effects & -> & Heffects).
      rewrite elem_of_app. intros [Hq|Hq]; [by apply IH|].
      destruct e as [d|i reply|listingId confirmed|i reply| |rows].
      + destruct Heffects as [->|(user & status & ->)].
        * by apply elem_of_nil in Hq.
        * apply list_elem_of_singleton in Hq. injection Hq as ->.
          left. by eexists _, _.
      + destruct reply; [subst; by apply elem_of_nil in Hq|..];
          destruct Heffects as [label ->];
          by apply list_elem_of_singleton in Hq.
      + subst effects. apply elem_of_cons in Hq as [Hq|Hq]; [done|].
        destruct confirmed; [|by apply elem_of_nil in Hq].
        apply list_elem_of_singleton in Hq. injection Hq as ->.
        right. by eexists _, _.
      + destruct reply; [subst; by apply elem_of_nil in Hq|..];
          destruct Heffects as [label ->];
          (apply elem_of_cons in Hq as [Hq|Hq]; [done|]);
          by apply list_elem_of_singleton in Hq.
      + destruct Heffects as [->|(user & status & ->)].
        * by apply elem_of_nil in Hq.
        * apply list_elem_of_singleton in Hq. injection Hq as ->.
          left. by eexists _, _.
      + subst effects. by apply elem_of_nil in Hq. }
  split; [|split; [|exact Hshape]].
  - by destruct Hshape as [(user & status & ->)|(listingId & user & ->)].
  - destruct Hshape as [(user & status & ->)|(listingId & user & ->)].
    + exists (Some (User.id user)). simpl. unfold push. simpl.
      apply list_elem_of_here.
    + exists (User.id <$> user). simpl. unfold push. simpl.
      apply list_elem_of_further, list_elem_of_here.
Qed.

Lemma every_request_is_scoped_witness :
  Query.table (listings_query Sample.alice active) = "items".
Proof.
  refine (proj1 (every_request_is_scoped Sample.instant
                   [Sample.items; Sample.items] Sample.loaded
                   (listings_query Sample.alice active) _ _)).
  - apply sample_loaded_reachable.
  - apply list_elem_of_here.
Defined.

(** X7. An alert is raised only when a delete request has failed, and then
    with the text "Failed to delete listing"; a failed fetch never alerts.
    The confirmation prompt appears only when a delete button is pressed. *)
Theorem alerts_only_after_failed_delete instant w e w' :
  step instant w e = Some w' →
  ∃ effects,
    World.log w' = (World.log w ++ effects)%list
    ∧ (∀ message,
         Alert message ∈ effects →
         message = "Failed to delete listing"
         ∧ ∃ i reply, e = DeleteSettles i reply ∧ reply ≠ Served)
    ∧ (∀ message,
         Confirm message ∈ effects →
         ∃ listingId confirmed, e = ClickDelete listingId confirmed).
Proof.
  intros Hstep.
  destruct (step_log _ _ _ _ Hstep) as (effects & Hlog & Heffects).
  exists effects. split; [exact Hlog|].
  destruct e as [d|i reply|listingId confirmed|i reply| |rows].
  - destruct Heffects as [->|(user & status & ->)]; split; intros m Hm;
      try (by apply elem_of_nil in Hm);
      by apply list_elem_of_singleton in Hm.
  - destruct reply; [subst effects|destruct Heffects as [label ->]..];
      split; intros m Hm;
      try (by apply elem_of_nil in Hm);
      by apply list_elem_of_singleton in Hm.
  - subst effects. split; intros m Hm; [|by eexists _, _].
    apply elem_of_cons in Hm as [Hm|Hm]; [done|].
    destruct confirmed; [|by apply elem_of_nil in Hm].
    by apply list_elem_of_singleton in Hm.
  - destruct reply; [subst effects|destruct Heffects as [label ->]..];
      split; intros m Hm;
      try (by apply elem_of_nil in Hm);
      (apply elem_of_cons in Hm as [Hm|Hm]; [done|]);
      apply list_elem_of_singleton in Hm; try done;
      injection Hm as ->; (split; [done|]); by eexists _, _.
  - destruct Heffects as [->|(user & status & ->)]; split; intros m Hm;
      try (by apply elem_of_nil in Hm);
      by apply list_elem_of_singleton in Hm.
  - subst effects. split; intros m Hm; by apply elem_of_nil in Hm.
Qed.

Lemma alerts_only_after_failed_delete_witness :
  ∃ effects,
    World.log (Sample.world [FetchSettles 0 Threw])
    = (World.log Sample.mounted ++ effects)%list.
Proof.
  destruct (alerts_only_after_failed_delete Sample.instant Sample.mounted
              (FetchSettles 0 Threw) (Sample.world [FetchSettles 0 Threw]))
    as (effects & Hlog & _); [reflexivity|].
  by exists effects.
Defined.

(** ** Changes of identity and status *)

(** X8. When the effect runs again without an identity (the user or the
    session is gone), the early return only clears [isLoading]: the rows and
    the error stay as they were, nothing is sent and nothing in flight is
    cancelled. Rows loaded for the former user therefore stay on screen. *)
Theorem sign_out_keeps_rows instant w d w' :
  Deps.user d = None ∨ Deps.session d = None →
  step instant w (Rerender d) = Some w' →
  World.panel w' =
    Panel.mk (Panel.listings (World.panel w)) false
             (Panel.error (World.panel w))
  ∧ World.log w' = World.log w
  ∧ World.fetches w' = World.fetches w
  ∧ World.deletes w' = World.deletes w
  ∧ (truthy (Panel.error (World.panel w)) = false →
     displayed (World.panel w') = Panel.listings (World.panel w)).
Proof.
  intros Hnone Hstep. simpl in Hstep. injection Hstep as <-.
  unfold run_effect. simpl.
  rewrite (fetchMyListings_start_signed_out d _ Hnone). simpl.
  rewrite !app_nil_r. repeat split.
  intros Herror. unfold displayed. simpl. by rewrite Herror.
Qed.

Lemma sign_out_keeps_rows_witness :
  displayed
    (World.panel
       (Sample.world [FetchSettles 0 Served;
                      Rerender (Sample.signed_out active)]))
  = [Sample.phone; Sample.keys].
Proof.
  destruct (sign_out_keeps_rows Sample.instant Sample.loaded
              (Sample.signed_out active)
              (Sample.world [FetchSettles 0 Served;
                             Rerender (Sample.signed_out active)]))
    as (_ & _ & _ & _ & Hshown); [by left|reflexivity|].
  by apply Hshown.
Defined.

(** X9. When the effect runs again with an identity, the panel shows the
    spinner, the error is cleared, the rows are kept behind the spinner, and
    one read query for the new user and status is sent; the requests that
    were in flight stay in flight. *)
Theorem new_fetch_shows_spinner instant w d user session w' :
  Deps.user d = Some user →
  Deps.session d = Some session →
  step instant w (Rerender d) = Some w' →
  World.panel w' = Panel.mk (Panel.listings (World.panel w)) true None
  ∧ render (Deps.status d) (World.panel w') = Spinner
  ∧ World.fetches w' =
    (World.fetches w ++ [listings_query user (Deps.status d)])%list
  ∧ World.deletes w' = World.deletes w
  ∧ World.log w' =
    (World.log w ++ [Request (listings_query user (Deps.status d))])%list.
Proof.
  intros Hu Hs Hstep. simpl in Hstep. injection Hstep as <-.
  destruct d as [u s status]. simpl in Hu, Hs. subst u s. done.
Qed.

Lemma new_fetch_shows_spinner_witness :
  render closed
    (World.panel
       (Sample.world [FetchSettles 0 Served;
                      Rerender (Sample.signed_in closed)]))
  = Spinner.
Proof.
  refine (proj1 (proj2
    (new_fetch_shows_spinner Sample.instant Sample.loaded
       (Sample.signed_in closed) Sample.alice Sample.token
       (Sample.world [FetchSettles 0 Served;
                      Rerender (Sample.signed_in closed)]) _ _ _)));
    reflexivity.
Defined.

(** X10. Only the start of a fetch clears the error. When a fetch is
    answered without error while an error set by another fetch is pending,
    the rows are replaced by the answer but the panel keeps showing the
    error view, and no card. *)
Theorem served_fetch_keeps_pending_error instant w i q w' status :
  World.fetches w !! i = Some q →
  truthy (Panel.error (World.panel w)) = true →
  step instant w (FetchSettles i Served) = Some w' →
  Panel.listings (World.panel w') = run_select instant (World.items w) q
  ∧ Panel.error (World.panel w') = Panel.error (World.panel w)
  ∧ cards_of (render status (World.panel w')) = []
  ∧ ∃ message,
      render status (World.panel w') = ErrorView message WindowLocationReload.
Proof.
  intros Hq Herror Hstep. simpl in Hstep. rewrite Hq in Hstep.
  simpl in Hstep. injection Hstep as <-. simpl.
  split; [done|]. split; [done|].
  unfold render. simpl. rewrite Herror. split; [done|by eexists].
Qed.

Lemma served_fetch_keeps_pending_error_witness :
  cards_of
    (render closed
       (World.panel
          (Sample.world [Rerender (Sample.signed_in closed);
                         FetchSettles 0 Threw; FetchSettles 0 Served])))
  = []
  ∧ Panel.listings
      (World.panel
         (Sample.world [Rerender (Sample.signed_in closed);
                        FetchSettles 0 Threw; FetchSettles 0 Served]))
    = [Sample.wallet].
Proof.
  destruct (served_fetch_keeps_pending_error Sample.instant
              (Sample.world [Rerender (Sample.signed_in closed);
                             FetchSettles 0 Threw])
              0 (listings_query Sample.alice closed)
              (Sample.world [Rerender (Sample.signed_in closed);
                             FetchSettles 0 Threw; FetchSettles 0 Served])
              closed)
    as (Hrows & _ & Hcards & _); [reflexivity..|].
  split; [exact Hcards|]. rewrite Hrows. reflexivity.
Defined.

(** ** How deletes compose *)

Lemma run_cons instant w e es w1 :
  step instant w e = Some w1 →
  run instant w (e :: es) = run instant w1 es.
Proof. intros Hstep. simpl. by rewrite Hstep. Qed.

Lemma on_screen p (a : Listing.t) :
  a ∈ displayed p →
  Panel.isLoading p = false ∧ truthy (Panel.error p) = false
  ∧ a ∈ Panel.listings p.
Proof.
  unfold displayed.
  destruct (Panel.isLoading p); [by intros ?%elem_of_nil|].
  destruct (truthy (Panel.error p)); [by intros ?%elem_of_nil|done].
Qed.

Lemma step_click_delete instant w (a : Listing.t) :
  a ∈ displayed (World.panel w) →
  step instant w (ClickDelete (Listing.id a) true) =
  Some (World.mk (World.deps w) (World.panel w) (World.fetches w)
          (World.deletes w ++
           [Suspended.mk (Listing.id a) (Panel.listings (World.panel w))
              (delete_query (Listing.id a) (Deps.user (World.deps w)))])
          (World.items w)
          (World.log w ++
           [Confirm confirm_message;
            Request (delete_query (Listing.id a)
                                  (Deps.user (World.deps w)))])).
Proof.
  intros Ha. simpl. rewrite decide_True; [done|].
  apply delete_button_on_screen, list_elem_of_fmap. by exists a.
Qed.

Lemma step_delete_served instant w i k :
  World.deletes w !! i = Some k →
  step instant w (DeleteSettles i Served) =
  Some (World.mk (World.deps w)
          (Panel.mk (filter (λ l, Listing.id l ≠ Suspended.listingId k)
                            (Suspended.listings k))
                    (Panel.isLoading (World.panel w))
                    (Panel.error (World.panel w)))
          (World.fetches w) (delete i (World.deletes w))
          (run_delete (World.items w) (Suspended.query k))
          (World.log w ++ [])).
Proof. intros Hk. simpl. by rewrite Hk. Qed.

(** X11. Two deletes that overlap do not add up. When the delete buttons of
    two rows are pressed before either request is answered, both handlers
    hold the row list of the same render; after both are answered without
    error, the row list is that list without the row answered last, and the
    row answered first is back on it. *)
Theorem overlapping_deletes_restore_a_row instant w (a b : Listing.t) :
  a ∈ displayed (World.panel w) →
  b ∈ displayed (World.panel w) →
  Listing.id a ≠ Listing.id b →
  ∃ w',
    run instant w
      [ClickDelete (Listing.id a) true; ClickDelete (Listing.id b) true;
       DeleteSettles (length (World.deletes w)) Served;
       DeleteSettles (length (World.deletes w)) Served] = Some w'
    ∧ Panel.listings (World.panel w') =
      filter (λ l, Listing.id l ≠ Listing.id b)
             (Panel.listings (World.panel w))
    ∧ a ∈ Panel.listings (World.panel w').
Proof.
  intros Ha Hb Hab.
  erewrite run_cons by by apply step_click_delete.
  erewrite run_cons by by apply step_click_delete.
  erewrite run_cons.
  2:{ apply step_delete_served. simpl.
      rewrite <- (assoc_L (++)%list). simpl. by apply list_lookup_middle. }
  erewrite run_cons.
  2:{ apply step_delete_served. simpl.
      rewrite <- (assoc_L (++)%list). simpl. rewrite delete_middle.
      by apply list_lookup_middle. }
  eexists. split; [reflexivity|]. simpl. split; [done|].
  apply list_elem_of_filter. split; [done|].
  by apply on_screen in Ha as (_ & _ & Ha).
Qed.

Lemma overlapping_deletes_restore_a_row_witness :
  ∃ w',
    run Sample.instant Sample.loaded
      [ClickDelete "k1" true; ClickDelete "k2" true;
       DeleteSettles 0 Served; DeleteSettles 0 Served] = Some w'
    ∧ Sample.keys ∈ Panel.listings (World.panel w').
Proof.
  destruct (overlapping_deletes_restore_a_row Sample.instant Sample.loaded
              Sample.keys Sample.phone)
    as (w' & Hrun & _ & Hback).
  - apply list_elem_of_further, list_elem_of_here.
  - apply list_elem_of_here.
  - discriminate.
  - by exists w'.
Defined.

Ltac project :=
  cbn [World.deps World.panel World.fetches World.deletes World.items
       World.log Suspended.listingId Suspended.listings Suspended.query
       Panel.listings Panel.isLoading Panel.error].

Lemma sequential_deletes_run instant w (a b : Listing.t) :
  a ∈ displayed (World.panel w) →
  b ∈ displayed (World.panel w) →
  Listing.id a ≠ Listing.id b →
  ∃ w',
    run instant w
      [ClickDelete (Listing.id a) true;
       DeleteSettles (length (World.deletes w)) Served;
       ClickDelete (Listing.id b) true;
       DeleteSettles (length (World.deletes w)) Served] = Some w'
    ∧ World.panel w' =
      Panel.mk
        (filter (λ l, Listing.id l ≠ Listing.id b)
           (filter (λ l, Listing.id l ≠ Listing.id a)
                   (Panel.listings (World.panel w))))
        false (Panel.error (World.panel w))
    ∧ World.items w' =
      run_delete
        (run_delete (World.items w)
           (delete_query (Listing.id a) (Deps.user (World.deps w))))
        (delete_query (Listing.id b) (Deps.user (World.deps w)))
    ∧ World.fetches w' = World.fetches w
    ∧ World.deletes w' = World.deletes w.
Proof.
  intros Ha Hb Hab.
  pose proof (on_screen _ _ Ha) as (Hloading & Herror & _).
  pose proof (on_screen _ _ Hb) as (_ & _ & Hb').
  erewrite run_cons by by apply step_click_delete.
  erewrite run_cons.
  2:{ apply step_delete_served. project. by apply list_lookup_middle. }
  project. rewrite delete_middle, app_nil_r.
  erewrite run_cons.
  2:{ apply step_click_delete. unfold displayed. project.
      rewrite Hloading, Herror. apply list_elem_of_filter. split; [|done].
      intros Heq. by apply Hab. }
  erewrite run_cons.
  2:{ apply step_delete_served. project. by apply list_lookup_middle. }
  project. rewrite delete_middle, app_nil_r.
  eexists. split; [reflexivity|]. project.
  by rewrite Hloading.
Qed.

(** X12. Deletes that follow one another do add up, in either order. When
    the button of one row is pressed and its request answered without error
    before the button of another row is pressed and answered, both rows are
    gone from the list and the others are kept in order; pressing the two in
    the opposite order ends in the same panel state and the same table. *)
Theorem sequential_deletes_commute instant w (a b : Listing.t) :
  a ∈ displayed (World.panel w) →
  b ∈ displayed (World.panel w) →
  Listing.id a ≠ Listing.id b →
  ∃ w1 w2,
    run instant w
      [ClickDelete (Listing.id a) true;
       DeleteSettles (length (World.deletes w)) Served;
       ClickDelete (Listing.id b) true;
       DeleteSettles (length (World.deletes w)) Served] = Some w1
    ∧ run instant w
        [ClickDelete (Listing.id b) true;
         DeleteSettles (length (World.deletes w)) Served;
         ClickDelete (Listing.id a) true;
         DeleteSettles (length (World.deletes w)) Served] = Some w2
    ∧ Panel.listings (World.panel w1) =
      filter (λ l, Listing.id l ≠ Listing.id a ∧ Listing.id l ≠ Listing.id b)
             (Panel.listings (World.panel w))
    ∧ World.panel w2 = World.panel w1
    ∧ World.items w2 = World.items w1.
Proof.
  intros Ha Hb Hab.
  destruct (sequential_deletes_run instant w a b Ha Hb Hab)
    as (w1 & Hrun1 & Hpanel1 & Hitems1 & _).
  destruct (sequential_deletes_run instant w b a Hb Ha (not_eq_sym Hab))
    as (w2 & Hrun2 & Hpanel2 & Hitems2 & _).
  exists w1, w2. split; [exact Hrun1|]. split; [exact Hrun2|].
  rewrite Hpanel1, Hpanel2, Hitems1, Hitems2. simpl.
  rewrite !list_filter_filter. unfold run_delete.
  rewrite !list_filter_filter.
  split; [|split].
  - apply list_filter_iff. intros l. tauto.
  - f_equal. apply list_filter_iff. intros l. tauto.
  - apply list_filter_iff. intros l. tauto.
Qed.

Lemma sequential_deletes_commute_witness :
  ∃ w1,
    run Sample.instant Sample.loaded
      [ClickDelete "k1" true; DeleteSettles 0 Served;
       ClickDelete "k2" true; DeleteSettles 0 Served] = Some w1
    ∧ Panel.listings (World.panel w1) = [].
Proof.
  destruct (sequential_deletes_commute Sample.instant Sample.loaded
              Sample.keys Sample.phone)
    as (w1 & w2 & Hrun & _ & Hrows & _).
  - apply list_elem_of_further, list_elem_of_here.
  - apply list_elem_of_here.
  - discriminate.
  - exists w1. split; [exact Hrun|]. rewrite Hrows. reflexivity.
Defined.

(** ** Local removal against the table *)

Lemma filter_fmap {A B} (f : A → B) (P : B → Prop) `{∀ y, Decision (P y)}
    (l : list A) :
  filter P (f <$> l) = f <$> filter (λ x, P (f x)) l.
Proof.
  induction l as [|x l IH]; [done|]. rewrite fmap_cons, !filter_cons.
  destruct (decide (P (f x))); by rewrite IH.
Qed.

Lemma refetch_after_delete instant rows user status listingId :
  filter (λ l, Listing.id l ≠ listingId)
         (run_select instant rows (listings_query user status))
  ≡ₚ run_select instant
       (run_delete rows (delete_query listingId (Some user)))
       (listings_query user status).
Proof.
  rewrite !run_select_Permutation. unfold owned_with_status, run_delete.
  rewrite filter_fmap, !list_filter_filter.
  apply fmap_Permutation.
  assert (∀ l k : Table, l = k → l ≡ₚ k) as Heq by by intros ?? ->.
  apply Heq, list_filter_iff.
  intros row. rewrite selected_delete_query. simpl. unfold Item.id.
  split.
  - intros (Hid & Hu & Hs). repeat split; [done..|]. by intros [? _].
  - intros ((Hu & Hs) & Hnot). repeat split; [|done..].
    intros Hid. apply Hnot. split; [done|]. by rewrite Hu.
Qed.

(** X13. Removing the row locally shows what a new fetch would. When the
    list on screen is the answer to the signed-in user's read query on the
    table as it is now, and a row's delete button is pressed and the request
    is served, the row list has the same rows as that query returns on the
    table after the delete, and both are ordered newest first. *)
Theorem local_removal_agrees_with_refetch
    instant w user status (a : Listing.t) :
  Deps.user (World.deps w) = Some user →
  a ∈ displayed (World.panel w) →
  Panel.listings (World.panel w) =
    run_select instant (World.items w) (listings_query user status) →
  ∃ w',
    run instant w
      [ClickDelete (Listing.id a) true;
       DeleteSettles (length (World.deletes w)) Served] = Some w'
    ∧ (a ∉ Panel.listings (World.panel w'))
    ∧ (Panel.listings (World.panel w')
       ≡ₚ run_select instant (World.items w') (listings_query user status))
    ∧ StronglySorted (newer_or_same instant) (Panel.listings (World.panel w'))
    ∧ StronglySorted (newer_or_same instant)
        (run_select instant (World.items w') (listings_query user status)).
Proof.
  intros Hu Ha Hrows.
  erewrite run_cons by by apply step_click_delete.
  erewrite run_cons.
  2:{ apply step_delete_served. project. by apply list_lookup_middle. }
  eexists. split; [reflexivity|]. project. rewrite Hu, Hrows.
  split; [|split; [|split]].
  - rewrite list_elem_of_filter. by intros [Hne _].
  - apply refetch_after_delete.
  - eapply StronglySorted_sublist;
      [apply sublist_filter|apply run_select_sorted].
  - apply run_select_sorted.
Qed.

Lemma local_removal_agrees_with_refetch_witness :
  ∃ w',
    run Sample.instant Sample.loaded
      [ClickDelete "k1" true; DeleteSettles 0 Served] = Some w'
    ∧ (Panel.listings (World.panel w')
       ≡ₚ run_select Sample.instant (World.items w')
            (listings_query Sample.alice active)).
Proof.
  destruct (local_removal_agrees_with_refetch Sample.instant Sample.loaded
              Sample.alice active Sample.keys)
    as (w' & Hrun & _ & Hsame & _).
  - reflexivity.
  - apply list_elem_of_further, list_elem_of_here.
  - reflexivity.
  - by exists w'.
Defined.

(** X14. A signed-in user who owns no row with the requested status sees,
    once the first fetch is answered, the empty state with the link to
    create a listing, not an empty list of cards; rows of other owners or
    of another status do not count. *)
Theorem no_rows_shows_empty_state instant user session status rows :
  owned_with_status user status rows = [] →
  ∃ w',
    run instant (mount (Deps.mk (Some user) (Some session) status) rows)
        [FetchSettles 0 Served] = Some w'
    ∧ Panel.listings (World.panel w') = []
    ∧ render status (World.panel w') = EmptyView status "/listing/create".
Proof.
  intros Hnone. eexists. split; [reflexivity|]. simpl.
  unfold render. simpl.
  rewrite run_select_listings_query, Hnone. done.
Qed.

Lemma no_rows_shows_empty_state_witness :
  ∃ w',
    run Sample.instant
        (mount (Deps.mk (Some Sample.bob) (Some Sample.token) closed)
               Sample.items)
        [FetchSettles 0 Served] = Some w'
    ∧ render closed (World.panel w') = EmptyView closed "/listing/create".
Proof.
  destruct (no_rows_shows_empty_state Sample.instant Sample.bob Sample.token
              closed Sample.items)
    as (w' & Hrun & _ & Hview); [reflexivity|].
  by exists w'.
Defined.

(** ** The navigation link wrapper *)

(** X15. [TransitionLink] renders the routing library's [Link] and hands it
    every property it was given, unchanged: reading any key from the props
    of the [Link] gives what reading it from the argument gives. The only
    keys it can add are href, children and className, and a pass-through
    attribute is present in the one exactly when it is present in the
    other. *)
Theorem transition_link_forwards_props
    (Value : Type) (undefined : Value) (args : gmap string Value) :
  let link := Links.TransitionLink Value undefined args in
  Links.component Value link = "Link"
  ∧ (∀ k, Links.get Value undefined k (Links.props Value link)
          = Links.get Value undefined k args)
  ∧ dom (Links.props Value link)
    = dom args ∪ ({["href"; "children"; "className"]} : gset string)
  ∧ (∀ k, k ≠ "href" → k ≠ "children" → k ≠ "className" →
          Links.props Value link !! k = args !! k).
Proof.
  simpl. split; [done|].
  assert (∀ k, k ≠ "href" → k ≠ "children" → k ≠ "className" →
               Links.props Value (Links.TransitionLink Value undefined args)
               !! k = args !! k) as Hother.
  { intros k Hh Hc Hn. unfold Links.TransitionLink. simpl.
    rewrite lookup_insert_ne by done.
    rewrite lookup_union, !lookup_delete_ne by done.
    rewrite !lookup_insert_ne, lookup_empty by done.
    by destruct (args !! k). }
  split; [|split; [|exact Hother]].
  - intros k. unfold Links.get at 1 3.
    destruct (decide (k = "children")) as [->|Hc].
    { unfold Links.TransitionLink. simpl. by rewrite lookup_insert_eq. }
    destruct (decide (k = "className")) as [->|Hn].
    { unfold Links.TransitionLink. simpl.
      rewrite lookup_insert_ne by done.
      rewrite lookup_union, lookup_delete_eq, lookup_insert_eq. done. }
    destruct (decide (k = "href")) as [->|Hh].
    { unfold Links.TransitionLink. simpl.
      rewrite lookup_insert_ne by done.
      rewrite lookup_union, !lookup_delete_ne, lookup_delete_eq by done.
      rewrite lookup_insert_ne, lookup_insert_eq by done. done. }
    by rewrite Hother.
  - unfold Links.TransitionLink. simpl.
    rewrite dom_insert_L, dom_union_L, !dom_delete_L, !dom_insert_L,
      dom_empty_L.
    apply leibniz_equiv. intros k.
    rewrite !elem_of_union, !elem_of_difference, !elem_of_singleton,
      elem_of_empty.
    destruct (decide (k = "href")), (decide (k = "children")),
      (decide (k = "className")); tauto.
Qed.

Lemma transition_link_forwards_props_witness :
  Links.props string
    (Links.TransitionLink string ""
       (<["target" := "_blank"]> {["href" := "/listing/create"]}))
  !! "target" = Some "_blank".
Proof.
  rewrite (proj2 (proj2 (proj2
             (transition_link_forwards_props string ""
                (<["target" := "_blank"]> {["href" := "/listing/create"]}))))
             "target") by done.
  apply lookup_insert_eq.
Defined.
